(** * IntraView: the realtime session controller of [ConsolePage.tsx]

    A shallow embedding of the interactive logic of
    [src/pages/ConsolePage.tsx] (the React component [ConsolePage]) and
    the properties of its handlers.

    - JavaScript numbers that the component manipulates are integers
      (sample offsets, counters): they are modelled as [Z].
    - A JavaScript object used as a dictionary ([memoryKv]) is a
      [gmap string _] of its own properties.
    - The collaborators ([WavRecorder], [WavStreamPlayer],
      [RealtimeClient]) are not part of the component: every call the
      component makes on them is recorded in a trace, and what they
      answer (values, exceptions, microphone frames) is supplied by an
      environment record. *)

From Stdlib Require Import ZArith Lia.
From stdpp Require Import gmap strings list fin_maps pretty.

Local Open Scope string_scope.
Local Open Scope list_scope.
Local Open Scope Z_scope.

(** ** JavaScript values and exceptions *)

Module Js.

(** What a thrown (or rejected) value is: the [TypeError] the language
    raises on a property access through [undefined], or whatever a
    collaborator threw. *)
Inductive Error : Type :=
| TypeError
| Raised (message : string).

(** The completion of a (possibly [async]) function: it returns, or it
    throws; for an [async] function [Throws] is the rejection of its
    promise. *)
Inductive Outcome (A : Type) : Type :=
| Returns (a : A)
| Throws (e : Error).
Arguments Returns {A} a.
Arguments Throws {A} e.

(** Truthiness of a string-or-nullish value: [null], [undefined] and
    the empty string are falsy. *)
Definition truthy_string (s : option string) : bool :=
  match s with
  | Some s => negb (String.eqb s "")
  | None => false
  end.

(** [n || 0] on a number-or-undefined [n]. *)
Definition or_zero (n : option Z) : Z :=
  match n with
  | Some n => if n =? 0 then 0 else n
  | None => 0
  end.

(** [xs.slice(0, -1)]: all but the last element. *)
Definition slice_0_neg1 {A} (xs : list A) : list A :=
  take (length xs - 1)%nat xs.

(** [o[key] = value] on an ordinary object [o] (an object literal, with
    prototype [Object.prototype]) seen as the map of its own properties.
    Every key but one creates or overwrites an own property. The key
    ["__proto__"] is inherited from [Object.prototype] as an accessor:
    the assignment runs its setter, which creates no own property, and
    which does nothing at all for a value that is not an object, as the
    strings stored here. *)
Definition assign {V} (o : gmap string V) (key : string) (value : V)
  : gmap string V :=
  if String.eqb key "__proto__" then o else <[key := value]> o.

End Js.
Export Js.

(** ** The event log ([realtimeEvents]) *)

Inductive Source : Type := client | server.

(** The payload [event: { [key: string]: any }]: its [type] member (absent
    is [None]) and the rest of it. *)
Record Payload : Type := mkPayload {
  type_ : option string;
  rest : string
}.

(** [interface RealtimeEvent]. *)
Record RealtimeEvent : Type := mkRealtimeEvent {
  time : string;
  source : Source;
  count : option Z;
  event : Payload
}.

Definition set_count (c : option Z) (e : RealtimeEvent) : RealtimeEvent :=
  {| time := time e; source := source e; count := c; event := event e |}.

#[global] Instance Source_eq_dec : EqDecision Source.
Proof. solve_decision. Defined.

(** The updater passed to [setRealtimeEvents] by the [realtime.event]
    handler. [lastEvent?.event.type] is [undefined] on an empty log, so an
    event without a [type] compares equal to it, and the assignment to
    [lastEvent.count] then throws. *)
Definition record (realtimeEvents : list RealtimeEvent)
    (realtimeEvent : RealtimeEvent) : Outcome (list RealtimeEvent) :=
  let lastEvent := last realtimeEvents in
  if decide (lastEvent ≫= (λ l, type_ (event l)) = type_ (event realtimeEvent))
  then
    match lastEvent with
    | Some lastEvent =>
        let lastEvent := set_count (Some (or_zero (count lastEvent) + 1)) lastEvent in
        Returns (slice_0_neg1 realtimeEvents ++ [lastEvent])
    | None => Throws TypeError
    end
  else Returns (realtimeEvents ++ [realtimeEvent]).

(** ** Conversation items, audio and the collaborators' data *)

(** [data.mono]: one block of captured samples. *)
Definition Frame : Type := list Z.

(** The playable asset [WavRecorder.decode] builds. *)
Record WavFile : Type := mkWavFile {
  url : string;
  blob : list Z
}.

Inductive ItemStatus : Type := in_progress | completed | incomplete.

#[global] Instance ItemStatus_eq_dec : EqDecision ItemStatus.
Proof. solve_decision. Defined.

(** [item.formatted]. *)
Record Formatted : Type := mkFormatted {
  audio : option (list Z);
  file : option WavFile;
  transcript : string;
  text : string
}.

(** [ItemType], as far as the component reads and writes it. *)
Record Item : Type := mkItem {
  id : string;
  status : ItemStatus;
  formatted : Formatted
}.

Definition set_file (f : option WavFile) (i : Item) : Item :=
  {| id := id i; status := status i;
     formatted := {| audio := audio (formatted i); file := f;
                     transcript := transcript (formatted i);
                     text := text (formatted i) |} |}.

(** The [delta] of a [conversation.updated] notification. *)
Record Delta : Type := mkDelta {
  delta_audio : option (list Z);
  delta_transcript : option string
}.

(** What [wavStreamPlayer.interrupt()] resolves to when it resolves to an
    object: [trackId] is [null] ([None]) when nothing was queued. *)
Record TrackSampleOffset : Type := mkTrackSampleOffset {
  trackId : option string;
  offset : Z
}.

(** The content arrays handed to [client.sendUserMessageContent]: one
    [input_text] part each. *)
Inductive UserMessage : Type :=
| interview_seed (interviewMessage customQuestion : string)
| code_text (code : string)
| feedback_request.

(** The options [client.updateSession] is called with. *)
Inductive SessionOptions : Type :=
| instructions (text : string)
| input_audio_transcription (model : string)
| turn_detection (type : option string).

(** ** Calls on the collaborators *)

Inductive Call : Type :=
| RecorderBegin
| RecorderRecord
| RecorderPause
| RecorderEnd
| PlayerConnect
| PlayerInterrupt
| PlayerAdd16BitPCM (pcm : list Z) (track : string)
| WavDecode (pcm : list Z) (sampleRate fromSampleRate : Z)
| ClientConnect
| ClientDisconnect
| ClientSendUserMessageContent (m : UserMessage)
| ClientAppendInputAudio (mono : Frame)
| ClientCreateResponse
| ClientCancelResponse (item : string) (sampleCount : Z)
| ClientDeleteItem (item : string)
| ClientUpdateSession (o : SessionOptions)
| ConsoleLog (e : RealtimeEvent)
| ConsoleError (e : Error).

#[global] Instance Error_eq_dec : EqDecision Error.
Proof. solve_decision. Defined.
#[global] Instance Payload_eq_dec : EqDecision Payload.
Proof. solve_decision. Defined.
#[global] Instance RealtimeEvent_eq_dec : EqDecision RealtimeEvent.
Proof. solve_decision. Defined.
#[global] Instance UserMessage_eq_dec : EqDecision UserMessage.
Proof. solve_decision. Defined.
#[global] Instance SessionOptions_eq_dec : EqDecision SessionOptions.
Proof. solve_decision. Defined.
#[global] Instance Call_eq_dec : EqDecision Call.
Proof. solve_decision. Defined.

Definition is_cancel (c : Call) : bool :=
  match c with ClientCancelResponse _ _ => true | _ => false end.
Definition is_append (c : Call) : bool :=
  match c with ClientAppendInputAudio _ => true | _ => false end.
Definition is_decode (c : Call) : bool :=
  match c with WavDecode _ _ _ => true | _ => false end.
Definition is_console (c : Call) : bool :=
  match c with ConsoleLog _ | ConsoleError _ => true | _ => false end.


(** The calls of a trace that satisfy [p], and how many they are. *)
Definition only (p : Call → bool) (t : list Call) : list Call := List.filter p t.
Definition calls (p : Call → bool) (t : list Call) : nat := length (only p t).

(** ** React state *)

Record Feedback : Type := mkFeedback {
  problemSolving : Z;
  communication : Z;
  codeQuality : Z;
  timeManagement : Z
}.

(** The [useState] cells the handlers read or write. [items] holds
    references to the client's item objects: an item is shared, not
    copied, so a reference is its [id] in the [heap] below. *)
Record ReactState : Type := mkReactState {
  items : list string;
  realtimeEvents : list RealtimeEvent;
  isConnected : bool;
  canPushToTalk : bool;
  isRecording : bool;
  memoryKv : gmap string string;
  code : string;
  company : string;
  persona : string;
  customQuestion : string;
  feedback : Feedback
}.

(** The initial value of every cell (the arguments of [useState]). *)
Definition initial_state : ReactState :=
  {| items := []; realtimeEvents := []; isConnected := false;
     canPushToTalk := true; isRecording := false; memoryKv := ∅;
     code := ""; company := ""; persona := "Friendly";
     customQuestion := "";
     feedback := mkFeedback 2 2 2 2 |}.

Inductive RecorderStatus : Type := ended | paused | recording.

#[global] Instance RecorderStatus_eq_dec : EqDecision RecorderStatus.
Proof. solve_decision. Defined.

(** Everything a handler can observe or change: the React cells, the
    [startTimeRef] ref, and the collaborators as the component sees them
    through [getStatus()], [isConnected()], [getTurnDetectionType()] and
    [conversation.getItems()]. [suspensions] counts the [await]s passed so
    far. *)
Record World : Type := mkWorld {
  react : ReactState;
  startTimeRef : string;
  recorderStatus : RecorderStatus;
  playerConnected : bool;
  clientConnected : bool;
  turnDetectionType : option string;
  conversation : list string;
  heap : gmap string Item;
  suspensions : nat
}.

(** What the outside answers during one run. *)
Record Env : Type := mkEnv {
  now : string;
  fails : Call → option Error;
  interrupt_result : Outcome (option TrackSampleOffset);
  decode_result : list Z → Outcome WavFile;
  frames_at : nat → list Frame
}.

(** ** Updating the records *)

Definition setItems (v : list string) (s : ReactState) : ReactState :=
  let 'mkReactState _ b c d e f g h i j k := s in mkReactState v b c d e f g h i j k.
Definition setRealtimeEvents (v : list RealtimeEvent) (s : ReactState) : ReactState :=
  let 'mkReactState a _ c d e f g h i j k := s in mkReactState a v c d e f g h i j k.
Definition setIsConnected (v : bool) (s : ReactState) : ReactState :=
  let 'mkReactState a b _ d e f g h i j k := s in mkReactState a b v d e f g h i j k.
Definition setCanPushToTalk (v : bool) (s : ReactState) : ReactState :=
  let 'mkReactState a b c _ e f g h i j k := s in mkReactState a b c v e f g h i j k.
Definition setIsRecording (v : bool) (s : ReactState) : ReactState :=
  let 'mkReactState a b c d _ f g h i j k := s in mkReactState a b c d v f g h i j k.
Definition setMemoryKv (v : gmap string string) (s : ReactState) : ReactState :=
  let 'mkReactState a b c d e _ g h i j k := s in mkReactState a b c d e v g h i j k.
Definition setCode (v : string) (s : ReactState) : ReactState :=
  let 'mkReactState a b c d e f _ h i j k := s in mkReactState a b c d e f v h i j k.
Definition setFeedback (v : Feedback) (s : ReactState) : ReactState :=
  let 'mkReactState a b c d e f g h i j _ := s in mkReactState a b c d e f g h i j v.

Definition with_react (upd : ReactState → ReactState) (w : World) : World :=
  let 'mkWorld a b c d e f g h i := w in mkWorld (upd a) b c d e f g h i.
Definition with_startTimeRef (v : string) (w : World) : World :=
  let 'mkWorld a _ c d e f g h i := w in mkWorld a v c d e f g h i.
Definition with_recorderStatus (v : RecorderStatus) (w : World) : World :=
  let 'mkWorld a b _ d e f g h i := w in mkWorld a b v d e f g h i.
Definition with_playerConnected (v : bool) (w : World) : World :=
  let 'mkWorld a b c _ e f g h i := w in mkWorld a b c v e f g h i.
Definition with_clientConnected (v : bool) (w : World) : World :=
  let 'mkWorld a b c d _ f g h i := w in mkWorld a b c d v f g h i.
Definition with_turnDetectionType (v : option string) (w : World) : World :=
  let 'mkWorld a b c d e _ g h i := w in mkWorld a b c d e v g h i.
Definition with_heap (upd : gmap string Item → gmap string Item) (w : World) : World :=
  let 'mkWorld a b c d e f g h i := w in mkWorld a b c d e f g (upd h) i.
Definition next_suspension (w : World) : World :=
  let 'mkWorld a b c d e f g h i := w in mkWorld a b c d e f g h (S i).

(** Modelled from the spec: the state of the collaborators, whose code
    ([lib/wavtools] and the [RealtimeClient] package) is not part of the
    component. The Audio Capture Device reports idle ([ended]), [paused] or
    [recording]: [begin()] opens it paused, [record()] starts it,
    [pause()] pauses it, [end()] closes it. [connect()] and
    [disconnect()] open and close the playback engine and the remote
    client, and [updateSession] sets the turn-detection type. Every other
    call leaves what the component can observe as it is. *)
Definition effect (c : Call) (w : World) : World :=
  match c with
  | RecorderBegin => with_recorderStatus paused w
  | RecorderRecord => with_recorderStatus recording w
  | RecorderPause => with_recorderStatus paused w
  | RecorderEnd => with_recorderStatus ended w
  | PlayerConnect => with_playerConnected true w
  | ClientConnect => with_clientConnected true w
  | ClientDisconnect => with_clientConnected false w
  | ClientUpdateSession (turn_detection t) => with_turnDetectionType t w
  | _ => w
  end.

(** ** The monad of handlers: state, trace of calls, exceptions *)

Definition M (A : Type) : Type := Env → World → World * list Call * Outcome A.

Definition ret {A} (a : A) : M A := λ _ w, (w, [], Returns a).

Definition throw {A} (e : Error) : M A := λ _ w, (w, [], Throws e).

Definition bind {A B} (m : M A) (k : A → M B) : M B :=
  λ env w,
    match m env w with
    | (w1, t1, Returns a) => let '(w2, t2, r) := k a env w1 in (w2, t1 ++ t2, r)
    | (w1, t1, Throws e) => (w1, t1, Throws e)
    end.

Declare Scope handler_scope.
Delimit Scope handler_scope with M.
Notation "x <- m ;; k" := (bind m (λ x, k))
  (at level 100, m at next level, right associativity) : handler_scope.
Notation "m ;; k" := (bind m (λ _, k))
  (at level 100, right associativity) : handler_scope.
Local Open Scope handler_scope.

(** Reading the world, and writing it. *)
Definition read {A} (f : World → A) : M A := λ _ w, (w, [], Returns (f w)).
Definition update (f : World → World) : M unit := λ _ w, (f w, [], Returns tt).
Definition setState (f : ReactState → ReactState) : M unit := update (with_react f).

(** [new Date().toISOString()]. *)
Definition clock : M string := λ env w, (w, [], Returns (now env)).

(** A value computed outside the handler that may be an exception. *)
Definition settle {A} (o : Outcome A) : M A := λ _ w, (w, [], o).

(** A call that always returns ([console.log]). *)
Definition log (c : Call) : M unit := λ _ w, (w, [c], Returns tt).

(** A call on a collaborator: the environment says whether it throws. *)
Definition call (c : Call) : M unit :=
  λ env w,
    match fails env c with
    | Some e => (w, [c], Throws e)
    | None => (effect c w, [c], Returns tt)
    end.

(** [wavStreamPlayer.interrupt()] and [WavRecorder.decode(...)] answer
    with a value. *)
Definition interrupt : M (option TrackSampleOffset) :=
  λ env w, (w, [PlayerInterrupt], interrupt_result env).
Definition decode (pcm : list Z) (sampleRate fromSampleRate : Z) : M WavFile :=
  λ env w, (w, [WavDecode pcm sampleRate fromSampleRate], decode_result env pcm).

(** Modelled from the spec: the Audio Capture Device ([WavRecorder] of
    [lib/wavtools], not part of the component) hands frames to the
    callback given to [record] only while it is recording. Every
    [record] of the component registers the same callback,
    [(data) => client.appendInputAudio(data.mono)], so the frames the
    microphone produces during a suspension become these calls. *)
Definition delivered (env : Env) (w : World) : list Call :=
  match recorderStatus w with
  | recording => ClientAppendInputAudio <$> frames_at env (suspensions w)
  | _ => []
  end.

(** An [await] suspends the handler; until it resumes, the microphone
    callback may run. *)
Definition suspend : M unit :=
  λ env w, (next_suspension w, delivered env w, Returns tt).

Definition await {A} (m : M A) : M A :=
  λ env w,
    let '(w1, t1, r) := m env w in
    let '(w2, t2, _) := suspend env w1 in
    (w2, t1 ++ t2, r).

(** Projections of a run. *)
Definition world_of {A} (r : World * list Call * Outcome A) : World := r.1.1.
Definition trace_of {A} (r : World * list Call * Outcome A) : list Call := r.1.2.
Definition outcome_of {A} (r : World * list Call * Outcome A) : Outcome A := r.2.

(** ** React hooks *)

(** A handler written inside the component closes over the state of the
    render that created it. [useCallback(f, [])] has an empty dependency
    list, so it hands out the closure of the first render, whose state is
    [initial_state], whatever the current render's state is. A handler
    that is not memoized is the closure of the current render. *)
Definition useCallback_no_deps {F} (callback : ReactState → F)
    (current : ReactState) : F :=
  callback initial_state.

Definition closure {F} (callback : ReactState → F) (current : ReactState) : F :=
  callback current.

(** Run the handler a render of the current state provides. *)
Definition rendered {A} (hook : ReactState → M A) : M A :=
  λ env w, hook (react w) env w.

(** ** The handlers of [ConsolePage] *)

(** [s.trim()]. *)
Fixpoint trimStart (s : string) : string :=
  match s with
  | String c s' => if Ascii.is_space c then trimStart s' else s
  | EmptyString => EmptyString
  end.
Definition trim (s : string) : string :=
  String.rev (trimStart (String.rev (trimStart s))).

Definition interviewMessage (company persona : string) : string :=
  if truthy_string (Some (trim company))
  then "You are a professional and experienced software engineer with a "
       +:+ persona +:+
       " personality conducting a technical coding interview with a candidate for "
       +:+ company +:+ "."
  else "You are a professional and experienced software engineer with a "
       +:+ persona +:+
       " personality conducting a technical coding interview with a candidate.".

(** [connectConversation], memoized with no dependencies. *)
Definition connectConversation_callback (captured : ReactState) : M unit :=
  t <- clock ;;
  update (with_startTimeRef t) ;;
  setState (setIsConnected true) ;;
  setState (setRealtimeEvents []) ;;
  snapshot <- read conversation ;;
  setState (setItems snapshot) ;;
  setState (setMemoryKv ∅) ;;
  setState (setCode "") ;;
  setState (setFeedback (mkFeedback 2 2 2 2)) ;;
  await (call RecorderBegin) ;;
  await (call PlayerConnect) ;;
  await (call ClientConnect) ;;
  call (ClientSendUserMessageContent
          (interview_seed (interviewMessage (company captured) (persona captured))
                          (trim (customQuestion captured)))) ;;
  mode <- read turnDetectionType ;;
  if decide (mode = Some "server_vad") then await (call RecorderRecord) else ret tt.

Definition connectConversation : M unit :=
  rendered (useCallback_no_deps connectConversation_callback).

(** [disconnectConversation]. *)
Definition disconnectConversation : M unit :=
  setState (setIsConnected false) ;;
  call ClientDisconnect ;;
  await (call RecorderEnd) ;;
  _ <- await interrupt ;;
  ret tt.

(** [deleteConversationItem], memoized with no dependencies. *)
Definition deleteConversationItem_callback (captured : ReactState)
    (item : string) : M unit :=
  if negb (isConnected captured) then ret tt
  else call (ClientDeleteItem item).

Definition deleteConversationItem (item : string) : M unit :=
  rendered (λ current, useCallback_no_deps deleteConversationItem_callback current item).

(** [startRecording]. *)
Definition startRecording : M unit :=
  setState (setIsRecording true) ;;
  trackSampleOffset <- await interrupt ;;
  (if truthy_string (trackSampleOffset ≫= trackId) then
     match trackSampleOffset with
     | Some {| trackId := Some trackId; offset := offset |} =>
         await (call (ClientCancelResponse trackId offset))
     | _ => ret tt
     end
   else ret tt) ;;
  await (call RecorderRecord).

(** [stopRecording]. *)
Definition stopRecording : M unit :=
  setState (setIsRecording false) ;;
  await (call RecorderPause) ;;
  call ClientCreateResponse.

(** [changeTurnEndType]. *)
Definition changeTurnEndType (value : string) : M unit :=
  status <- read recorderStatus ;;
  (if String.eqb value "none" && bool_decide (status = recording)
   then await (call RecorderPause) else ret tt) ;;
  call (ClientUpdateSession
          (turn_detection (if String.eqb value "none" then None
                           else Some "server_vad"))) ;;
  connected <- read clientConnected ;;
  (if String.eqb value "server_vad" && connected
   then await (call RecorderRecord) else ret tt) ;;
  setState (setCanPushToTalk (String.eqb value "none")).

(** The handler registered for the [set_memory] tool; its schema declares
    [key] and [value] as strings. *)
Record ToolResult : Type := mkToolResult { ok : bool }.

Definition set_memory (key value : string) : M ToolResult :=
  setState (λ s, let newKv := assign (memoryKv s) key value in
                 setMemoryKv newKv s) ;;
  ret {| ok := true |}.

(** A setter called with a function does not run it: React queues the
    updater and runs it when it next renders the component, so an
    exception of the updater is raised by that render and not by the
    handler that called the setter. The updaters of the event log are the
    only ones of the component that can throw; they are kept, in their
    order, next to the world they will be applied to. *)
Definition Updater : Type := list RealtimeEvent → Outcome (list RealtimeEvent).

Record Scheduled : Type := mkScheduled {
  committed : World;
  queued : list Updater
}.

(** [client.on('realtime.event', ...)]: it prints the event, queues the
    updater and returns. *)
Definition on_realtime_event (realtimeEvent : RealtimeEvent) (env : Env)
    (s : Scheduled) : Scheduled * list Call * Outcome unit :=
  ({| committed := committed s;
      queued := queued s ++ [λ realtimeEvents, record realtimeEvents realtimeEvent] |},
   [ConsoleLog realtimeEvent],
   Returns tt).

(** The next render runs the queued updaters, each on the result of the
    one before; the first exception ends the render. *)
Fixpoint run_updaters (updaters : list Updater) (realtimeEvents : list RealtimeEvent)
    : Outcome (list RealtimeEvent) :=
  match updaters with
  | [] => Returns realtimeEvents
  | updater :: updaters =>
      match updater realtimeEvents with
      | Returns realtimeEvents' => run_updaters updaters realtimeEvents'
      | Throws e => Throws e
      end
  end.

Definition render (s : Scheduled) : Outcome Scheduled :=
  match run_updaters (queued s) (realtimeEvents (react (committed s))) with
  | Returns realtimeEvents' =>
      Returns {| committed := with_react (setRealtimeEvents realtimeEvents')
                                (committed s);
                 queued := [] |}
  | Throws e => Throws e
  end.

(** [client.on('error', ...)]. *)
Definition on_error (e : Error) : M unit := log (ConsoleError e).

(** [client.on('conversation.interrupted', ...)]. *)
Definition on_conversation_interrupted : M unit :=
  trackSampleOffset <- await interrupt ;;
  if truthy_string (trackSampleOffset ≫= trackId) then
    match trackSampleOffset with
    | Some {| trackId := Some trackId; offset := offset |} =>
        await (call (ClientCancelResponse trackId offset))
    | _ => ret tt
    end
  else ret tt.

(** [item.formatted.audio?.length] as a condition. *)
Definition has_length (pcm : option (list Z)) : bool :=
  match pcm with
  | Some pcm => negb (length pcm =? 0)%nat
  | None => false
  end.

(** [client.on('conversation.updated', ...)] of the setup effect. The
    notification carries a reference to the item object; the handler
    writes [formatted.file] into that shared object. *)
Definition on_conversation_updated (item : string) (delta : option Delta) : M unit :=
  snapshot <- read conversation ;;
  object <- read (λ w, heap w !! item) ;;
  match object with
  | None => throw TypeError
  | Some object =>
      match delta ≫= delta_audio with
      | Some pcm => call (PlayerAdd16BitPCM pcm (id object))
      | None => ret tt
      end ;;
      (if bool_decide (status object = completed)
          && has_length (audio (formatted object))
       then
         wavFile <- await (decode (default [] (audio (formatted object))) 24000 24000) ;;
         update (with_heap (alter (set_file (Some wavFile)) item))
       else ret tt) ;;
      setState (setItems snapshot)
  end.

(** Notifications are dispatched one after the other; a handler that
    throws does not stop the next one. *)
Fixpoint dispatch (handlers : list (M unit)) (env : Env) (w : World)
    : World * list Call :=
  match handlers with
  | [] => (w, [])
  | h :: handlers =>
      let '(w1, t1, _) := h env w in
      let '(w2, t2) := dispatch handlers env w1 in
      (w2, t1 ++ t2)
  end.

(** ** Readings of the specification and sample inputs *)




(** A fresh log entry of a given source and type. *)
Definition ev (s : Source) (t : string) : RealtimeEvent :=
  {| time := "2024-10-05T00:00:00.000Z"; source := s; count := None;
     event := {| type_ := Some t; rest := "" |} |}.

(** An environment in which nothing fails, nothing is playing and the
    microphone is silent; a world in which nothing is open yet. *)
Definition quiet : Env :=
  {| now := "2024-10-05T00:00:00.000Z";
     fails := λ _, None;
     interrupt_result := Returns None;
     decode_result := λ pcm, Returns {| url := "blob:wav"; blob := pcm |};
     frames_at := λ _, [] |}.

Definition idle : World :=
  {| react := initial_state; startTimeRef := ""; recorderStatus := ended;
     playerConnected := false; clientConnected := false;
     turnDetectionType := None; conversation := []; heap := ∅;
     suspensions := 0 |}.

(** The same environment while a track is playing: [interrupt()] answers
    with the track and the samples played. *)
Definition playing (track : string) (samples : Z) (env : Env) : Env :=
  {| now := now env; fails := fails env;
     interrupt_result := Returns (Some {| trackId := Some track; offset := samples |});
     decode_result := decode_result env; frames_at := frames_at env |}.

(** The same environment with one call failing. *)
Definition failing (c : Call) (e : Error) (env : Env) : Env :=
  {| now := now env;
     fails := λ c', if decide (c' = c) then Some e else fails env c';
     interrupt_result := interrupt_result env;
     decode_result := decode_result env; frames_at := frames_at env |}.

(** The same environment with the microphone producing [frames] during
    every suspension. *)
Definition speaking (frames : list Frame) (env : Env) : Env :=
  {| now := now env; fails := fails env;
     interrupt_result := interrupt_result env;
     decode_result := decode_result env; frames_at := λ _, frames |}.

(** Samples played, as a duration at the fixed rate of 24000 samples per
    second: in milliseconds, and in seconds. *)
Definition sampleRate : Z := 24000.
Definition duration_ms (samplesPlayed : Z) : Z := samplesPlayed * 1000 / sampleRate.
Definition duration_s (samplesPlayed : Z) : Z := samplesPlayed / sampleRate.

(** The cancellation as the specification words it: one [cancelResponse]
    for the interrupted track, its offset translated into a duration. *)
Definition cancels_with_duration (duration : Z → Z) (handler : M unit)
    (env : Env) (w : World) : Prop :=
  ∀ T O,
    interrupt_result env = Returns (Some {| trackId := Some T; offset := O |}) →
    only is_cancel (trace_of (handler env w)) = [ClientCancelResponse T (duration O)].

(** The failure policy as the specification words it: the handler
    completes normally and the failure is logged. *)
Definition failure_logged_and_swallowed (handler : M unit)
    (env : Env) (w : World) : Prop :=
  outcome_of (handler env w) = Returns tt
  ∧ (calls is_console (trace_of (handler env w)) > 0)%nat.

(** A world whose conversation holds one finished assistant item with
    three samples of audio, not decoded yet. *)
Definition item_a1 : Item :=
  {| id := "a1"; status := completed;
     formatted := {| audio := Some [1; 2; 3]; file := None;
                     transcript := "hello"; text := "" |} |}.

Definition finished : World :=
  {| react := initial_state; startTimeRef := ""; recorderStatus := paused;
     playerConnected := true; clientConnected := true;
     turnDetectionType := None; conversation := ["a1"];
     heap := {[ "a1" := item_a1 ]}; suspensions := 0 |}.

(** Idempotence of the decode as the specification words it: two
    completion notifications for one item, one decode. *)
Definition decoded_once (item : string) (env : Env) (w : World) : Prop :=
  calls is_decode
    (dispatch [on_conversation_updated item None;
               on_conversation_updated item None] env w).2 = 1%nat.

(** The unwinding of a failed connect as the specification words it: when
    the attempt fails, the sub-resources are closed again and no session
    state is retained. *)
Definition unwound_on_failure (env : Env) (w : World) : Prop :=
  ∀ e, outcome_of (connectConversation env w) = Throws e →
    recorderStatus (world_of (connectConversation env w)) = ended
    ∧ clientConnected (world_of (connectConversation env w)) = false
    ∧ isConnected (react (world_of (connectConversation env w))) = false.

(** A call that is not a forwarded microphone frame. *)
Definition not_append (c : Call) : bool := negb (is_append c).

(** A world in the middle of a session: the React state says connected,
    the client is connected and the conversation holds item ["a1"]. *)
Definition in_session : World := with_react (setIsConnected true) finished.

(** Deletion as the specification words it: a no-op when disconnected,
    forwarded to the client when connected; the local list is not touched
    by the call itself. *)
Definition deletes_as_specified (item : string) (env : Env) (w : World) : Prop :=
  only not_append (trace_of (deleteConversationItem item env w))
    = (if isConnected (react w) then [ClientDeleteItem item] else [])
  ∧ items (react (world_of (deleteConversationItem item env w))) = items (react w).

(** Occurrences of one particular call. *)
Definition is_call (c c' : Call) : bool := bool_decide (c' = c).

(** The session update [changeTurnEndType] sends for a given value. *)
Definition turn_update (value : string) : Call :=
  ClientUpdateSession
    (turn_detection (if String.eqb value "none" then None else Some "server_vad")).

(** A world in automatic mode: connected, with the capture running. *)
Definition capturing : World :=
  with_recorderStatus recording
    (with_turnDetectionType (Some "server_vad") in_session).

(** The [set_memory] tool as its caller expects it: the handler answers
    [{ok: true}] and the memory then binds [key] to [value], every other
    key keeping its value. *)
Definition binds_as_specified (key value : string) (env : Env) (w : World) : Prop :=
  outcome_of (set_memory key value env w) = Returns {| ok := true |}
  ∧ memoryKv (react (world_of (set_memory key value env w)))
    = <[key := value]> (memoryKv (react w)).

(** The session state [connectConversation] sets before it opens
    anything: connected, an empty event log, the client's items, an empty
    memory and an empty editor. *)
Definition session_state_set (w w' : World) : Prop :=
  isConnected (react w') = true
  ∧ realtimeEvents (react w') = []
  ∧ items (react w') = conversation w
  ∧ memoryKv (react w') = ∅
  ∧ code (react w') = "".

(** A manual-mode world in which an earlier press of the button was never
    released: the capture is still recording. *)
Definition held : World := with_recorderStatus recording in_session.

(** The ordering of [startRecording] as the specification words it, for
    every execution: whatever precedes a forwarded frame contains the
    interruption and the cancellation request. *)
Definition forwards_after_interruption (track : string) (samples : Z)
    (env : Env) (w : World) : Prop :=
  ∀ pre mono post,
    trace_of (startRecording env w) = pre ++ ClientAppendInputAudio mono :: post →
    In PlayerInterrupt pre ∧ In (ClientCancelResponse track samples) pre.

(** ** More of [ConsolePage]: the log clock, the editor and the transcript *)

(** [pad] of [formatTime]: the decimal text of [n], with ["0"] put in
    front while it is shorter than two characters. Every turn of the loop
    makes the text one character longer, so two turns are enough. *)
Fixpoint pad_loop (turns : nat) (s : string) : string :=
  match turns with
  | O => s
  | S turns =>
      if (String.length s <? 2)%nat then pad_loop turns ("0" +:+ s) else s
  end.

Definition pad (n : Z) : string := pad_loop 2 (pretty n).

(** [formatTime]. [new Date(text).valueOf()] is a parameter: the
    milliseconds of a timestamp, an integer of magnitude at most
    8640000000000000 (the range of [Date]), or [None] for [NaN] (a text
    that is not a date). The numbers of the code are doubles. While the
    two instants are less than 2^53 ms apart the subtraction is exact and
    so is every [Math.floor(delta / k)], which is then [delta / k] on
    integers; [%] is the remainder that takes the sign of the dividend.
    Beyond that distance the doubles round, and this embedding gives no
    answer ([None]), as it gives none for an instant no [Date] can hold.
    With a [NaN] operand every field is [NaN], whose text is already
    three characters long. *)
Definition exact_below : Z := 2 ^ 53.
Definition date_limit : Z := 8640000000000000.

Definition formatTime (valueOf : string → option Z) (startTime timestamp : string)
  : option string :=
  match valueOf startTime, valueOf timestamp with
  | Some t0, Some t1 =>
      let delta := t1 - t0 in
      if (Z.abs t0 <=? date_limit) && (Z.abs t1 <=? date_limit)
         && (Z.abs delta <? exact_below)
      then
        let hs := Z.rem (delta / 10) 100 in
        let s := Z.rem (delta / 1000) 60 in
        let m := Z.rem (delta / 60000) 60 in
        Some (pad m +:+ ":" +:+ pad s +:+ "." +:+ pad hs)
      else None
  | _, _ => Some "NaN:NaN.NaN"
  end.

(** Reading a formatted time back: two digits, a colon, two digits, a
    dot, two digits, as hundredths of a second. *)
Definition digit (c : Stdlib.Strings.Ascii.ascii) : option Z :=
  let n := Z.of_nat (Stdlib.Strings.Ascii.nat_of_ascii c) - 48 in
  if (0 <=? n) && (n <=? 9) then Some n else None.

Definition two_digits (a b : Stdlib.Strings.Ascii.ascii) : option Z :=
  x ← digit a; y ← digit b; Some (10 * x + y).

Definition colon : Stdlib.Strings.Ascii.ascii := Stdlib.Strings.Ascii.ascii_of_nat 58.
Definition dot : Stdlib.Strings.Ascii.ascii := Stdlib.Strings.Ascii.ascii_of_nat 46.

Definition unformat (s : string) : option Z :=
  match s with
  | String m1 (String m2 (String c1 (String s1 (String s2
      (String c2 (String h1 (String h2 EmptyString))))))) =>
      if bool_decide (c1 = colon) && bool_decide (c2 = dot) then
        m ← two_digits m1 m2; sec ← two_digits s1 s2; hs ← two_digits h1 h2;
        Some ((m * 60 + sec) * 100 + hs)
      else None
  | _ => None
  end.

(** [pad n] is two digits that read back as [n]. *)
Definition pad_reads_back (n : Z) : bool :=
  match pad n with
  | String a (String b EmptyString) => bool_decide (two_digits a b = Some n)
  | _ => false
  end.

(** A clock for examples: ["start"] is instant 0, ["later"] is an hour
    and 61230 ms after it, and any other text is 61230 ms after it. *)
Definition sample_clock (text : string) : option Z :=
  if String.eqb text "start" then Some 0
  else if String.eqb text "later" then Some 3661230
  else Some 61230.

(** ** The event log over a run of events *)

(** [record] for one event after the other, stopping at the first
    exception. *)
Fixpoint record_all (log : list RealtimeEvent) (events : list RealtimeEvent)
  : Outcome (list RealtimeEvent) :=
  match events with
  | [] => Returns log
  | e :: events =>
      match record log e with
      | Returns log' => record_all log' events
      | Throws err => Throws err
      end
  end.


(** No two neighbours of the log have the same type. *)
Fixpoint compact (log : list RealtimeEvent) : Prop :=
  match log with
  | a :: ((b :: _) as rest) => type_ (event a) ≠ type_ (event b) ∧ compact rest
  | _ => True
  end.

(** ** The editor cells *)

(** The cells [lastSentCode] and [isSynced], next to [code]. *)
Record EditorCells : Type := mkEditorCells {
  lastSentCode : string;
  isSynced : bool
}.

Definition initial_cells : EditorCells :=
  {| lastSentCode := ""; isSynced := true |}.

(** [onCodeChange], called by the editor as [onCodeChange(value || '')].
    It is not memoized: it closes over the current [lastSentCode]. *)
Definition onCodeChange (newValue : string) (page : World * EditorCells)
  : World * EditorCells :=
  let '(w, cells) := page in
  (with_react (setCode newValue) w,
   {| lastSentCode := lastSentCode cells;
      isSynced := String.eqb newValue (lastSentCode cells) |}).

Definition editor_onChange (value : option string) (page : World * EditorCells)
  : World * EditorCells :=
  onCodeChange (if truthy_string value then default "" value else "") page.

(** [sendCode]. It is not memoized either: it closes over the current
    [isConnected] and [code]. *)
Definition sendCode (env : Env) (page : World * EditorCells)
  : (World * EditorCells) * list Call * Outcome unit :=
  let '(w, cells) := page in
  if negb (isConnected (react w)) then (page, [], Returns tt)
  else
    match call (ClientSendUserMessageContent (code_text (code (react w)))) env w with
    | (w', t, Returns _) =>
        ((w', {| lastSentCode := code (react w); isSynced := true |}), t, Returns tt)
    | (w', t, Throws e) => ((w', cells), t, Throws e)
    end.

(** The sync flag says whether the editor holds what was last sent. *)
Definition in_sync (page : World * EditorCells) : Prop :=
  isSynced page.2 = String.eqb (code (react page.1)) (lastSentCode page.2).

(** ** The transcript *)

(** [a || b] on strings. *)
Definition or_else (a b : string) : string :=
  if truthy_string (Some a) then a else b.

(** The text rendered for a user item and for an assistant item that is
    not a tool call. *)
Definition user_text (f : Formatted) : string :=
  or_else (transcript f)
    (if has_length (audio f) then "(Awaiting transcript)"
     else or_else (text f) "(Item sent)").

Definition assistant_text (f : Formatted) : string :=
  or_else (or_else (transcript f) (text f)) "(Truncated)".

(** The items rendered: none while there is at most one, then all but
    the first. *)
Definition rendered_items (items : list string) : list string :=
  if (length items <=? 1)%nat then [] else drop 1 items.

(** ** Sample runs *)

(** An environment that delivers [frames] during suspension number [n]
    only. *)
Definition speaking_at (n : nat) (frames : list Frame) (env : Env) : Env :=
  {| now := now env; fails := fails env;
     interrupt_result := interrupt_result env;
     decode_result := decode_result env;
     frames_at := λ k, if (k =? n)%nat then frames else frames_at env k |}.

(** Two operator actions in a row: the second handler runs if the first
    returned, and between the two the microphone callback may run. *)
Definition and_then (first second : M unit) : M unit :=
  first ;; suspend ;; second.

(** An item still being produced, with audio so far. *)
Definition item_b2 : Item :=
  {| id := "b2"; status := in_progress;
     formatted := {| audio := Some [7; 8]; file := None;
                     transcript := ""; text := "" |} |}.

Definition streaming : World :=
  with_heap (insert "b2" item_b2) finished.

(** The cancellation request an interruption result leads to. *)
Definition cancellation (r : option TrackSampleOffset) : list Call :=
  match r with
  | Some {| trackId := Some track; offset := samples |} =>
      if truthy_string (Some track) then [ClientCancelResponse track samples]
      else []
  | _ => []
  end.

(** The seed instruction of a connect: the interview message of the
    initial cells (no company, the ["Friendly"] persona) and an empty
    question. *)
Definition initial_seed : UserMessage :=
  interview_seed
    "You are a professional and experienced software engineer with a Friendly personality conducting a technical coding interview with a candidate."
    "".

(** The same world after the operator filled in the configuration. *)
Definition configured (company persona customQuestion : string) (w : World) : World :=
  with_react
    (λ s, let 'mkReactState a b c d e f g _ _ _ k := s in
          mkReactState a b c d e f g company persona customQuestion k) w.

Definition is_add (c : Call) : bool :=
  match c with PlayerAdd16BitPCM _ _ => true | _ => false end.

(** The chunk a notification streams to the player. *)
Definition streamed (object : Item) (delta : option Delta) : list Call :=
  match delta ≫= delta_audio with
  | Some chunk => [PlayerAdd16BitPCM chunk (id object)]
  | None => []
  end.

(** A delta carrying two samples of audio. *)
Definition chunk_delta : option Delta :=
  Some {| delta_audio := Some [9; 9]; delta_transcript := None |}.

(** An environment whose decoder rejects every buffer. *)
Definition undecodable (e : Error) (env : Env) : Env :=
  {| now := now env; fails := fails env;
     interrupt_result := interrupt_result env;
     decode_result := λ _, Throws e; frames_at := frames_at env |}.

(** The memory after a handler ran. *)
Definition memory_after {A} (r : World * list Call * Outcome A) : gmap string string :=
  memoryKv (react (world_of r)).

(** A page whose editor holds code that was sent. *)
Definition sent_page : World * EditorCells :=
  (with_react (setCode "x = 1") in_session,
   {| lastSentCode := "x = 1"; isSynced := true |}).

(** The state after the handler of [realtime.event] ran for each event of
    a batch, before the next render. *)
Definition handled (events : list RealtimeEvent) (env : Env) (s : Scheduled)
  : Scheduled :=
  foldl (λ s e, (on_realtime_event e env s).1.1) s events.

(** The types of the entries of a log, and a list of types with every run
    of equal neighbours collapsed to one. *)
Definition types_of (log : list RealtimeEvent) : list (option string) :=
  (λ x, type_ (event x)) <$> log.

Fixpoint collapse (types : list (option string)) : list (option string) :=
  match types with
  | a :: ((b :: _) as rest) =>
      if decide (a = b) then collapse rest else a :: collapse rest
  | _ => types
  end.

(** * Properties *)

(** ** The event log *)

Section EventLog.

Implicit Types (log : list RealtimeEvent) (e l : RealtimeEvent).

Lemma slice_0_neg1_snoc {A} (xs : list A) (x : A) :
  slice_0_neg1 (xs ++ [x]) = xs.
Proof.
  unfold slice_0_neg1. rewrite length_app. simpl.
  replace (length xs + 1 - 1)%nat with (length xs) by lia.
  by rewrite take_app_length.
Qed.


(** [record] never fails on a log that has a last entry. *)
Lemma record_same_type log l e :
  last log = Some l → type_ (event l) = type_ (event e) →
  record log e =
    Returns (slice_0_neg1 log ++ [set_count (Some (or_zero (count l) + 1)) l]).
Proof.
  intros Hl Ht. unfold record. rewrite Hl. simpl.
  destruct (decide _) as [_|n]; [done | by destruct n].
Qed.

Lemma record_other_type log l e :
  last log = Some l → type_ (event l) ≠ type_ (event e) →
  record log e = Returns (log ++ [e]).
Proof.
  intros Hl Ht. unfold record. rewrite Hl. simpl.
  destruct (decide _) as [Heq|_]; [by destruct Ht | done].
Qed.

Lemma record_empty e :
  record [] e =
    if decide (type_ (event e) = None) then Throws TypeError else Returns [e].
Proof.
  unfold record. simpl.
  destruct (decide (None = _)), (decide (_ = None)); congruence.
Qed.





End EventLog.

(** ** Running handlers *)

Section Runs.

Context {A B : Type}.
Implicit Types (env : Env) (w : World) (k : A → M B).

Lemma bind_ret (a : A) k env w : bind (ret a) k env w = k a env w.
Proof. unfold bind, ret. by destruct (k a env w) as [[? ?] ?]. Qed.

Lemma bind_read (f : World → A) k env w : bind (read f) k env w = k (f w) env w.
Proof. unfold bind, read. by destruct (k (f w) env w) as [[? ?] ?]. Qed.

Lemma bind_update (f : World → World) (k : unit → M B) env w :
  bind (update f) k env w = k tt env (f w).
Proof. unfold bind, update. by destruct (k tt env (f w)) as [[? ?] ?]. Qed.

Lemma bind_setState (f : ReactState → ReactState) (k : unit → M B) env w :
  bind (setState f) k env w = k tt env (with_react f w).
Proof. apply bind_update. Qed.

Lemma bind_clock (k : string → M B) env w :
  bind clock k env w = k (now env) env w.
Proof. unfold bind, clock. by destruct (k (now env) env w) as [[? ?] ?]. Qed.

Lemma bind_ret_r (m : M A) env w : bind m ret env w = m env w.
Proof.
  unfold bind, ret. destruct (m env w) as [[w1 t1] [a|e]]; [|done].
  by rewrite app_nil_r.
Qed.

Lemma bind_assoc {C} (m : M A) k (h : B → M C) env w :
  bind (bind m k) h env w = bind m (λ a, bind (k a) h) env w.
Proof.
  unfold bind. destruct (m env w) as [[w1 t1] [a|e]]; [|done].
  destruct (k a env w1) as [[w2 t2] [b|e]]; [|done].
  destruct (h b env w2) as [[w3 t3] r]. by rewrite app_assoc.
Qed.

Lemma bind_throws (m : M A) k env w w' t e :
  m env w = (w', t, Throws e) → bind m k env w = (w', t, Throws e).
Proof. intros H. unfold bind. by rewrite H. Qed.

Lemma bind_returns (m : M A) k env w w' t a :
  m env w = (w', t, Returns a) →
  bind m k env w = (let '(w2, t2, r) := k a env w' in (w2, t ++ t2, r)).
Proof. intros H. unfold bind. by rewrite H. Qed.

End Runs.

(** ** Traces and worlds *)

Section Traces.

Implicit Types (env : Env) (w : World) (t : list Call) (p : Call → bool).

Lemma only_app p (t1 t2 : list Call) : only p (t1 ++ t2) = only p t1 ++ only p t2.
Proof. apply List.filter_app. Qed.

Lemma only_cons p (c : Call) (t : list Call) :
  only p (c :: t) = if p c then c :: only p t else only p t.
Proof. done. Qed.

Lemma only_delivered p env w :
  (∀ mono, p (ClientAppendInputAudio mono) = false) →
  only p (delivered env w) = [].
Proof.
  intros Hp. unfold delivered.
  destruct (recorderStatus w); try done.
  induction (frames_at env (suspensions w)) as [|f fs IH]; [done|].
  simpl. by rewrite Hp.
Qed.

Lemma filter_delivered env w : List.filter not_append (delivered env w) = [].
Proof. by apply only_delivered. Qed.

(** Counting calls that are not frames ignores the frames. *)
Lemma calls_skip_frames p (t : list Call) :
  (∀ mono, p (ClientAppendInputAudio mono) = false) →
  calls p t = calls p (only not_append t).
Proof.
  intros Hp. unfold calls, only. f_equal.
  induction t as [|c t IH]; [done|]. simpl.
  destruct c; simpl; try (destruct (p _); by rewrite IH).
  by rewrite Hp.
Qed.

(** A trace whose frames all come last: whatever precedes a forwarded
    frame contains the calls before the frames. *)
Lemma calls_precede_frames (l : list Call) (fs : list Frame) pre mono post :
  Forall (λ c, is_append c = false) l →
  l ++ (ClientAppendInputAudio <$> fs) = pre ++ ClientAppendInputAudio mono :: post →
  ∃ rest, pre = l ++ rest.
Proof.
  intros Hl. revert pre. induction Hl as [|c l Hc Hl IH]; intros pre Heq.
  - by exists pre.
  - destruct pre as [|c' pre]; simpl in Heq.
    + injection Heq as -> _. discriminate Hc.
    + injection Heq as <- Heq. destruct (IH _ Heq) as [rest ->].
      by exists rest.
Qed.

Lemma delivered_not_recording env w :
  recorderStatus w ≠ recording → delivered env w = [].
Proof. unfold delivered. by destruct (recorderStatus w). Qed.

Lemma delivered_paused env w : recorderStatus w = paused → delivered env w = [].
Proof. unfold delivered. by intros ->. Qed.

Lemma delivered_after_begin env w : delivered env (effect RecorderBegin w) = [].
Proof. by destruct w. Qed.

Lemma await_call env w c :
  await (call c) env w =
    match fails env c with
    | Some e => (next_suspension w, c :: delivered env w, Throws e)
    | None => (next_suspension (effect c w), c :: delivered env (effect c w),
               Returns tt)
    end.
Proof. unfold await, call, suspend. by destruct (fails env c). Qed.

Lemma react_next_suspension w : react (next_suspension w) = react w.
Proof. by destruct w. Qed.

Lemma recorderStatus_next_suspension w :
  recorderStatus (next_suspension w) = recorderStatus w.
Proof. by destruct w. Qed.

Lemma recorderStatus_with_recorderStatus s w :
  recorderStatus (with_recorderStatus s w) = s.
Proof. by destruct w. Qed.

Lemma recorderStatus_with_react f w :
  recorderStatus (with_react f w) = recorderStatus w.
Proof. by destruct w. Qed.

Lemma paused_after_begin w :
  recorderStatus (next_suspension (effect RecorderBegin w)) = paused
  ∧ react (next_suspension (effect RecorderBegin w)) = react w.
Proof. by destruct w. Qed.

End Traces.

(** ** Interruption and cancellation *)

Section Interruption.

Implicit Types (env : Env) (w : World) (T : string) (O : Z).

Lemma truthy_string_nonempty T : T ≠ "" → truthy_string (Some T) = true.
Proof.
  intros H. simpl. destruct (String.eqb_spec T ""); [by destruct H | done].
Qed.

(** What the [conversation.interrupted] handler does, case by case. *)
Lemma on_conversation_interrupted_track env w T O :
  interrupt_result env = Returns (Some {| trackId := Some T; offset := O |}) →
  T ≠ "" →
  on_conversation_interrupted env w =
    (next_suspension (next_suspension w),
     PlayerInterrupt :: delivered env w
       ++ ClientCancelResponse T O :: delivered env (next_suspension w),
     match fails env (ClientCancelResponse T O) with
     | Some e => Throws e
     | None => Returns tt
     end).
Proof.
  intros Hi HT.
  unfold on_conversation_interrupted, bind, await, interrupt, suspend, call.
  rewrite Hi. simpl option_bind. cbn [mbind option_bind trackId].
  rewrite (truthy_string_nonempty _ HT).
  by destruct (fails env (ClientCancelResponse T O)).
Qed.

Lemma on_conversation_interrupted_no_track env w r :
  interrupt_result env = Returns r →
  truthy_string (r ≫= trackId) = false →
  on_conversation_interrupted env w =
    (next_suspension w, PlayerInterrupt :: delivered env w, Returns tt).
Proof.
  intros Hi Hr.
  unfold on_conversation_interrupted, bind, await, interrupt, suspend, ret.
  rewrite Hi, Hr. simpl. by rewrite app_nil_r.
Qed.

Lemma on_conversation_interrupted_throws env w e :
  interrupt_result env = Throws e →
  on_conversation_interrupted env w =
    (next_suspension w, PlayerInterrupt :: delivered env w, Throws e).
Proof.
  intros Hi.
  unfold on_conversation_interrupted, bind, await, interrupt, suspend.
  by rewrite Hi.
Qed.

(** What [startRecording] does, case by case. *)
Lemma startRecording_track env w T O :
  interrupt_result env = Returns (Some {| trackId := Some T; offset := O |}) →
  T ≠ "" →
  startRecording env w =
    let w1 := with_react (setIsRecording true) w in
    match fails env (ClientCancelResponse T O) with
    | Some e =>
        (next_suspension (next_suspension w1),
         PlayerInterrupt :: delivered env w1
           ++ ClientCancelResponse T O :: delivered env (next_suspension w1),
         Throws e)
    | None =>
        let '(w', t, r) :=
          await (call RecorderRecord) env (next_suspension (next_suspension w1)) in
        (w', PlayerInterrupt :: delivered env w1
               ++ ClientCancelResponse T O :: delivered env (next_suspension w1)
               ++ t, r)
    end.
Proof.
  intros Hi HT.
  unfold startRecording, bind at 1. simpl.
  unfold bind at 1. unfold await at 1, interrupt, suspend.
  rewrite Hi. cbn [mbind option_bind trackId].
  rewrite (truthy_string_nonempty _ HT).
  unfold bind. rewrite (await_call _ _ (ClientCancelResponse T O)).
  destruct (fails env (ClientCancelResponse T O)); simpl; [done|].
  by destruct (await (call RecorderRecord) env _) as [[w' t] r].
Qed.

Lemma startRecording_no_track env w r :
  interrupt_result env = Returns r →
  truthy_string (r ≫= trackId) = false →
  startRecording env w =
    let w1 := with_react (setIsRecording true) w in
    let '(w', t, r) := await (call RecorderRecord) env (next_suspension w1) in
    (w', PlayerInterrupt :: delivered env w1 ++ t, r).
Proof.
  intros Hi Hr.
  unfold startRecording, bind at 1. simpl.
  unfold bind at 1. unfold await at 1, interrupt, suspend.
  rewrite Hi, Hr. unfold bind, ret. simpl.
  by destruct (await (call RecorderRecord) env _) as [[w' t] r'].
Qed.

Ltac filter_trace :=
  repeat first
    [ rewrite only_app
    | rewrite only_delivered by done
    | rewrite only_cons; cbn [is_cancel is_console is_append is_decode] ];
  try rewrite ?app_nil_r.

(** C3 (amended). When interruption answers with a track whose id [T]
    is a non-empty string and with [O] samples played, the handler of
    [conversation.interrupted] and [startRecording] each issue exactly
    one [cancelResponse], for [T], with the sample offset [O] itself:
    the component makes no conversion to a duration. *)
Theorem interrupt_cancels_at_sample_offset env w T O :
  interrupt_result env = Returns (Some {| trackId := Some T; offset := O |}) →
  T ≠ "" →
  only is_cancel (trace_of (on_conversation_interrupted env w))
    = [ClientCancelResponse T O]
  ∧ only is_cancel (trace_of (startRecording env w))
    = [ClientCancelResponse T O].
Proof.
  intros Hi HT. split.
  - rewrite (on_conversation_interrupted_track _ _ _ _ Hi HT).
    unfold trace_of. simpl fst. simpl snd. by filter_trace.
  - rewrite (startRecording_track _ _ _ _ Hi HT). cbv zeta.
    destruct (fails env (ClientCancelResponse T O)).
    + unfold trace_of. simpl fst. simpl snd. by filter_trace.
    + rewrite await_call.
      destruct (fails env RecorderRecord);
        unfold trace_of; simpl fst; simpl snd; by filter_trace.
Qed.

Lemma interrupt_cancels_at_sample_offset_witness :
  only is_cancel (trace_of (on_conversation_interrupted (playing "item_A" 24000 quiet) idle))
    = [ClientCancelResponse "item_A" 24000]
  ∧ only is_cancel (trace_of (startRecording (playing "item_A" 24000 quiet) idle))
    = [ClientCancelResponse "item_A" 24000].
Proof.
  apply (interrupt_cancels_at_sample_offset (playing "item_A" 24000 quiet) idle
           "item_A" 24000); [reflexivity | by vm_compute].
Defined.

(** C3 as stated fails: after 24000 samples (1000 ms, or 1 s, at
    24000 Hz) the offset handed to [cancelResponse] is 24000. *)
Lemma cancel_offset_is_not_a_duration :
  ¬ cancels_with_duration duration_ms on_conversation_interrupted
      (playing "item_A" 24000 quiet) idle
  ∧ ¬ cancels_with_duration duration_s on_conversation_interrupted
      (playing "item_A" 24000 quiet) idle
  ∧ ¬ cancels_with_duration duration_ms startRecording
      (playing "item_A" 24000 quiet) idle
  ∧ ¬ cancels_with_duration duration_s startRecording
      (playing "item_A" 24000 quiet) idle.
Proof.
  repeat split; intros H;
    specialize (H "item_A" 24000 eq_refl); vm_compute in H; congruence.
Qed.

(** C9. When interruption answers with no track ([undefined], or an
    object whose [trackId] is [null] or empty), no [cancelResponse] is
    issued and the outcome is not an error: the handler of
    [conversation.interrupted] returns after the interruption alone, and
    [startRecording] goes on to start the capture. *)
Theorem no_track_no_cancel env w r :
  interrupt_result env = Returns r →
  truthy_string (r ≫= trackId) = false →
  on_conversation_interrupted env w
    = (next_suspension w, PlayerInterrupt :: delivered env w, Returns tt)
  ∧ calls is_cancel (trace_of (startRecording env w)) = 0%nat
  ∧ only (λ c, negb (is_append c)) (trace_of (startRecording env w))
    = [PlayerInterrupt; RecorderRecord]
  ∧ outcome_of (startRecording env w)
    = match fails env RecorderRecord with
      | Some e => Throws e
      | None => Returns tt
      end.
Proof.
  intros Hi Hr. split; [by apply (on_conversation_interrupted_no_track _ _ r)|].
  rewrite (startRecording_no_track _ _ _ Hi Hr). cbv zeta.
  rewrite await_call. unfold calls.
  destruct (fails env RecorderRecord);
    unfold trace_of, outcome_of; simpl fst; simpl snd;
    repeat split; filter_trace; try done.
  all: rewrite ?only_app, ?only_cons; simpl negb; cbv iota;
    rewrite ?only_delivered by done; done.
Qed.

Lemma no_track_no_cancel_witness :
  on_conversation_interrupted quiet idle
    = (next_suspension idle, PlayerInterrupt :: delivered quiet idle, Returns tt)
  ∧ calls is_cancel (trace_of (startRecording quiet idle)) = 0%nat
  ∧ only (λ c, negb (is_append c)) (trace_of (startRecording quiet idle))
    = [PlayerInterrupt; RecorderRecord]
  ∧ outcome_of (startRecording quiet idle) = Returns tt.
Proof.
  apply (no_track_no_cancel quiet idle None); reflexivity.
Defined.

(** C6 (amended). When [cancelResponse] fails inside the handler of
    [conversation.interrupted], the handler neither catches nor logs the
    failure: playback has been interrupted first, the promise of the
    handler rejects with the error of [cancelResponse], nothing is
    written to the console, and the React state is left as it was. *)
Theorem cancel_failure_rejects_handler env w T O e :
  interrupt_result env = Returns (Some {| trackId := Some T; offset := O |}) →
  T ≠ "" →
  fails env (ClientCancelResponse T O) = Some e →
  outcome_of (on_conversation_interrupted env w) = Throws e
  ∧ only (λ c, negb (is_append c)) (trace_of (on_conversation_interrupted env w))
    = [PlayerInterrupt; ClientCancelResponse T O]
  ∧ calls is_console (trace_of (on_conversation_interrupted env w)) = 0%nat
  ∧ react (world_of (on_conversation_interrupted env w)) = react w.
Proof.
  intros Hi HT He.
  rewrite (on_conversation_interrupted_track _ _ _ _ Hi HT), He.
  unfold outcome_of, trace_of, world_of, calls. simpl fst. simpl snd.
  repeat split.
  - rewrite only_cons, only_app, only_cons. simpl negb. cbv iota.
    by rewrite !only_delivered.
  - by filter_trace.
  - by rewrite !react_next_suspension.
Qed.

Lemma cancel_failure_rejects_handler_witness :
  outcome_of (on_conversation_interrupted
                (failing (ClientCancelResponse "item_A" 4800) (Raised "no item")
                   (playing "item_A" 4800 quiet)) idle)
    = Throws (Raised "no item").
Proof.
  refine (proj1 (cancel_failure_rejects_handler
                   (failing (ClientCancelResponse "item_A" 4800) (Raised "no item")
                      (playing "item_A" 4800 quiet))
                   idle "item_A" 4800 (Raised "no item") _ _ _));
    [reflexivity | by vm_compute | by vm_compute].
Defined.

(** C6 as stated fails: with a rejected [cancelResponse] the handler
    does not complete normally and logs nothing. *)
Lemma cancel_failure_is_not_swallowed :
  ¬ failure_logged_and_swallowed on_conversation_interrupted
      (failing (ClientCancelResponse "item_A" 4800) (Raised "no item")
         (playing "item_A" 4800 quiet))
      idle.
Proof. intros [H _]. vm_compute in H. congruence. Qed.

(** C4 (amended). In manual mode, when [startRecording] is entered with
    the capture device not recording (the idle state) while a track [T] is
    playing, every audio frame forwarded with [appendInputAudio] comes
    after the playback interruption, after the cancellation request for
    [T] and after the start of the capture, whatever frames the
    microphone produces and whichever call fails. *)
Theorem startRecording_interrupts_before_forwarding env w T O pre mono post :
  recorderStatus w ≠ recording →
  interrupt_result env = Returns (Some {| trackId := Some T; offset := O |}) →
  T ≠ "" →
  trace_of (startRecording env w) = pre ++ ClientAppendInputAudio mono :: post →
  ∃ rest, pre = PlayerInterrupt :: ClientCancelResponse T O :: RecorderRecord :: rest.
Proof.
  intros Hidle Hi HT.
  rewrite (startRecording_track _ _ _ _ Hi HT). cbv zeta.
  rewrite !delivered_not_recording
    by by rewrite ?recorderStatus_next_suspension, recorderStatus_with_react.
  destruct (fails env (ClientCancelResponse T O)).
  { unfold trace_of. simpl fst. simpl snd. intros Heq.
    destruct (calls_precede_frames
                [PlayerInterrupt; ClientCancelResponse T O] [] pre mono post)
      as [rest ->]; [by repeat constructor | done |].
    simpl in Heq. injection Heq as Heq. by destruct rest. }
  rewrite await_call.
  assert (Hcalls : Forall (λ c, is_append c = false)
            [PlayerInterrupt; ClientCancelResponse T O; RecorderRecord])
    by by repeat constructor.
  destruct (fails env RecorderRecord); unfold trace_of; simpl fst; simpl snd.
  - rewrite delivered_not_recording
      by by rewrite ?recorderStatus_next_suspension, recorderStatus_with_react.
    intros Heq.
    destruct (calls_precede_frames
                [PlayerInterrupt; ClientCancelResponse T O; RecorderRecord] []
                pre mono post) as [rest ->]; [by repeat constructor | done |].
    by exists rest.
  - unfold delivered at 1. rewrite recorderStatus_with_recorderStatus.
    intros Heq.
    by apply (calls_precede_frames
             [PlayerInterrupt; ClientCancelResponse T O; RecorderRecord] _
             pre mono post Hcalls Heq).
Qed.

Lemma startRecording_interrupts_before_forwarding_witness :
  trace_of (startRecording (speaking [[1; 2]; [3]] (playing "item_A" 4800 quiet)) idle)
    = [PlayerInterrupt; ClientCancelResponse "item_A" 4800; RecorderRecord;
       ClientAppendInputAudio [1; 2]; ClientAppendInputAudio [3]]
  ∧ ∃ rest, [PlayerInterrupt; ClientCancelResponse "item_A" 4800; RecorderRecord]
            = PlayerInterrupt :: ClientCancelResponse "item_A" 4800
                :: RecorderRecord :: rest.
Proof.
  split; [reflexivity|].
  apply (startRecording_interrupts_before_forwarding
           (speaking [[1; 2]; [3]] (playing "item_A" 4800 quiet)) idle
           "item_A" 4800
           [PlayerInterrupt; ClientCancelResponse "item_A" 4800; RecorderRecord]
           [1; 2] [ClientAppendInputAudio [3]]);
    [by vm_compute | reflexivity | by vm_compute | reflexivity].
Defined.

(** C4 as stated fails: [startRecording] has no guard on the status of
    the capture device. When it runs while an earlier capture is still
    recording (a press that was never released), the frames of that
    capture are forwarded during the interruption, before the
    cancellation request. *)
Lemma held_capture_forwards_before_cancel :
  trace_of (startRecording (speaking [[1]] (playing "a1" 4800 quiet)) held)
    = [PlayerInterrupt; ClientAppendInputAudio [1];
       ClientCancelResponse "a1" 4800; ClientAppendInputAudio [1];
       RecorderRecord; ClientAppendInputAudio [1]]
  ∧ ¬ forwards_after_interruption "a1" 4800
        (speaking [[1]] (playing "a1" 4800 quiet)) held.
Proof.
  split; [reflexivity|].
  intros H.
  destruct (H [PlayerInterrupt] [1]
              [ClientCancelResponse "a1" 4800; ClientAppendInputAudio [1];
               RecorderRecord; ClientAppendInputAudio [1]] eq_refl) as [_ Hin].
  simpl in Hin. destruct Hin as [Hin|[]]. discriminate Hin.
Qed.

End Interruption.

(** ** The conversation reconciler *)

Section Reconciler.

Implicit Types (env : Env) (w : World) (item : string) (object : Item).

(** One notification for a finished item with audio. *)
Lemma on_conversation_updated_completed env w item object delta :
  heap w !! item = Some object →
  status object = completed →
  has_length (audio (formatted object)) = true →
  (∀ pcm track, fails env (PlayerAdd16BitPCM pcm track) = None) →
  on_conversation_updated item delta env w =
    let pcm := default [] (audio (formatted object)) in
    let streamed :=
      match delta ≫= delta_audio with
      | Some chunk => [PlayerAdd16BitPCM chunk (id object)]
      | None => []
      end in
    match decode_result env pcm with
    | Returns wavFile =>
        (with_react (setItems (conversation w))
           (with_heap (alter (set_file (Some wavFile)) item) (next_suspension w)),
         streamed ++ WavDecode pcm 24000 24000 :: delivered env w,
         Returns tt)
    | Throws e =>
        (next_suspension w,
         streamed ++ WavDecode pcm 24000 24000 :: delivered env w,
         Throws e)
    end.
Proof.
  intros Hobj Hst Hlen Hadd.
  unfold on_conversation_updated, bind at 1. simpl.
  unfold bind at 1. unfold read at 1. rewrite Hobj.
  rewrite Hst, Hlen. simpl andb. cbv iota.
  destruct (delta ≫= delta_audio) as [chunk|].
  - unfold bind at 1. unfold call at 1. rewrite Hadd.
    unfold bind, await, decode, suspend, update, setState.
    destruct (decode_result env _); simpl; [|done].
    by rewrite !app_nil_r.
  - unfold bind, await, decode, suspend, update, setState, ret.
    destruct (decode_result env _); simpl; [|done].
    by rewrite !app_nil_r.
Qed.

Lemma same_but_file object object' :
  set_file None object' = set_file None object →
  status object' = status object
  ∧ audio (formatted object') = audio (formatted object)
  ∧ ∀ f, set_file f object' = set_file f object.
Proof.
  destruct object as [i s [a f t x]], object' as [i' s' [a' f' t' x']].
  unfold set_file. simpl. intros [= -> -> -> -> ->]. done.
Qed.

(** Any number of notifications for a finished item with audio: each
    one decodes, and the item keeps everything but its file. *)
Lemma dispatch_updates_completed env item object deltas :
  status object = completed →
  has_length (audio (formatted object)) = true →
  (∀ pcm track, fails env (PlayerAdd16BitPCM pcm track) = None) →
  ∀ w object',
    heap w !! item = Some object' →
    set_file None object' = set_file None object →
    let r := dispatch (on_conversation_updated item <$> deltas) env w in
    calls is_decode r.2 = length deltas
    ∧ ∃ object'', heap r.1 !! item = Some object''
        ∧ (deltas = [] → object'' = object')
        ∧ set_file None object'' = set_file None object
        ∧ ∀ wavFile,
            decode_result env (default [] (audio (formatted object)))
              = Returns wavFile →
            deltas ≠ [] → object'' = set_file (Some wavFile) object.
Proof.
  intros Hst Hlen Hadd.
  induction deltas as [|delta deltas IH]; intros w object' Hobj Hsame.
  { simpl. split; [done|]. exists object'. by repeat split. }
  destruct (same_but_file _ _ Hsame) as (Hst' & Haud' & Hfile).
  cbn [fmap list_fmap dispatch].
  rewrite (on_conversation_updated_completed env w item object');
    [|done|congruence|congruence|done].
  cbv zeta. rewrite Haud'.
  set (pcm := default [] (audio (formatted object))).
  destruct (decode_result env pcm) as [wavFile|e] eqn:Hdec.
  - set (w1 := with_react _ _).
    assert (Hobj1 : heap w1 !! item = Some (set_file (Some wavFile) object)).
    { subst w1. destruct w. simpl in *.
      by rewrite lookup_alter_eq, Hobj, <- Hfile. }
    specialize (IH w1 _ Hobj1 eq_refl). cbv zeta in IH.
    destruct (dispatch _ env w1) as [w2 t2]. simpl in IH |- *.
    destruct IH as (Hcount & object'' & Hobj2 & Hnil & Hsame2 & Hwav).
    split.
    + unfold calls in *. rewrite !only_app. rewrite length_app, Hcount.
      destruct (delta ≫= delta_audio); simpl;
        rewrite only_delivered by done; simpl; lia.
    + exists object''. repeat split; [done|by auto|done|].
      intros wavFile' [= <-] _. destruct deltas as [|delta' deltas].
      * by apply Hnil.
      * by apply Hwav.
  - assert (Hobj1 : heap (next_suspension w) !! item = Some object')
      by by destruct w.
    specialize (IH _ _ Hobj1 Hsame). cbv zeta in IH.
    destruct (dispatch _ env (next_suspension w)) as [w2 t2]. simpl in IH |- *.
    destruct IH as (Hcount & object'' & Hobj2 & Hnil & Hsame2 & Hwav).
    split.
    + unfold calls in *. rewrite !only_app. rewrite length_app, Hcount.
      destruct (delta ≫= delta_audio); simpl;
        rewrite only_delivered by done; simpl; lia.
    + exists object''. repeat split; [done|by auto|done|].
      intros wavFile' Hdec'. congruence.
Qed.

(** C2 (amended). The handler of [conversation.updated] keeps no record
    of what it has decoded: every notification for an item that is
    [completed] with a non-empty audio buffer triggers one decode, so
    [n] notifications trigger [n] decodes. Repeating is idempotent on
    the item only: when the decode succeeds, the item ends with the
    file decoded from its buffer, after one notification as after
    several. *)
Theorem every_completed_notification_decodes env w item object deltas :
  heap w !! item = Some object →
  status object = completed →
  has_length (audio (formatted object)) = true →
  (∀ pcm track, fails env (PlayerAdd16BitPCM pcm track) = None) →
  calls is_decode (dispatch (on_conversation_updated item <$> deltas) env w).2
    = length deltas
  ∧ ∀ wavFile,
      decode_result env (default [] (audio (formatted object))) = Returns wavFile →
      deltas ≠ [] →
      heap (dispatch (on_conversation_updated item <$> deltas) env w).1 !! item
        = Some (set_file (Some wavFile) object).
Proof.
  intros Hobj Hst Hlen Hadd.
  destruct (dispatch_updates_completed env item object deltas Hst Hlen Hadd
              w object Hobj eq_refl) as (Hcount & object' & Hobj' & _ & _ & Hwav).
  split; [done|]. intros wavFile Hdec Hne.
  by rewrite Hobj', (Hwav wavFile Hdec Hne).
Qed.

Lemma every_completed_notification_decodes_witness :
  calls is_decode
    (dispatch (on_conversation_updated "a1" <$> [None; None]) quiet finished).2
    = 2%nat
  ∧ heap (dispatch (on_conversation_updated "a1" <$> [None; None]) quiet finished).1
      !! "a1"
    = Some (set_file (Some {| url := "blob:wav"; blob := [1; 2; 3] |}) item_a1).
Proof.
  destruct (every_completed_notification_decodes
              quiet finished "a1" item_a1 [None; None]) as [Hcount Hfile];
    [reflexivity..|].
  split; [exact Hcount|]. by apply Hfile.
Defined.

(** C2 as stated fails: two completion notifications for item ["a1"]
    decode its audio twice. *)
Lemma second_notification_decodes_again : ¬ decoded_once "a1" quiet finished.
Proof. unfold decoded_once. vm_compute. lia. Qed.

End Reconciler.

(** ** The session controller *)

Section Session.

Implicit Types (env : Env) (w : World).

(** The world once the synchronous prologue of [connectConversation] has
    run. *)
Lemma connectConversation_prologue env w :
  ∃ w0,
    connectConversation env w =
      (r <- await (call RecorderBegin) ;;
       await (call PlayerConnect) ;;
       await (call ClientConnect) ;;
       call (ClientSendUserMessageContent
               (interview_seed (interviewMessage "" "Friendly") (trim ""))) ;;
       mode <- read turnDetectionType ;;
       if decide (mode = Some "server_vad") then await (call RecorderRecord)
       else ret tt) env w0
    ∧ recorderStatus w0 = recorderStatus w
    ∧ playerConnected w0 = playerConnected w
    ∧ clientConnected w0 = clientConnected w
    ∧ isConnected (react w0) = true
    ∧ realtimeEvents (react w0) = []
    ∧ items (react w0) = conversation w
    ∧ memoryKv (react w0) = ∅
    ∧ code (react w0) = "".
Proof.
  eexists. split.
  - unfold connectConversation, rendered, useCallback_no_deps,
      connectConversation_callback.
    rewrite bind_clock, bind_update, !bind_setState, bind_read, !bind_setState.
    reflexivity.
  - by destruct w as [[] ].
Qed.

(** C5 (amended). If one of the three opens of [connectConversation]
    fails (the recorder's [begin], the player's [connect], the client's
    [connect]), the attempt fails with that very error and nothing after
    the failing open is called; but nothing is unwound: no close call is
    made, the sub-resources opened before it stay open, and the session
    state set before the opens ([isConnected] true, the event log
    cleared, the items the client's snapshot, the memory and the editor
    empty) is retained. *)
Theorem connect_failure_propagates_without_unwinding env w e :
  (fails env RecorderBegin = Some e →
     outcome_of (connectConversation env w) = Throws e
     ∧ only not_append (trace_of (connectConversation env w)) = [RecorderBegin]
     ∧ session_state_set w (world_of (connectConversation env w)))
  ∧ (fails env RecorderBegin = None → fails env PlayerConnect = Some e →
     outcome_of (connectConversation env w) = Throws e
     ∧ trace_of (connectConversation env w) = [RecorderBegin; PlayerConnect]
     ∧ recorderStatus (world_of (connectConversation env w)) = paused
     ∧ session_state_set w (world_of (connectConversation env w)))
  ∧ (fails env RecorderBegin = None → fails env PlayerConnect = None →
     fails env ClientConnect = Some e →
     outcome_of (connectConversation env w) = Throws e
     ∧ trace_of (connectConversation env w)
       = [RecorderBegin; PlayerConnect; ClientConnect]
     ∧ recorderStatus (world_of (connectConversation env w)) = paused
     ∧ playerConnected (world_of (connectConversation env w)) = true
     ∧ session_state_set w (world_of (connectConversation env w))).
Proof.
  destruct (connectConversation_prologue env w)
    as (w0 & -> & _ & _ & _ & Hconn & Hlog & Hitems & Hmem & Hcode).
  assert (Hset : ∀ w', react w' = react w0 → session_state_set w w').
  { intros w' Hre. unfold session_state_set. by rewrite Hre. }
  split; [|split].
  - intros Hb.
    rewrite (bind_throws _ _ _ _ _ _ _
               (eq_trans (await_call env w0 RecorderBegin)
                         ltac:(by rewrite Hb))).
    unfold outcome_of, trace_of, world_of. simpl fst. simpl snd.
    split; [done|]. split.
    + unfold not_append. rewrite only_cons. simpl.
      by rewrite only_delivered.
    + apply Hset. by rewrite react_next_suspension.
  - intros Hb Hp.
    rewrite (bind_returns _ _ _ _ _ _ _
               (eq_trans (await_call env w0 RecorderBegin)
                         ltac:(by rewrite Hb))).
    rewrite delivered_after_begin.
    destruct (paused_after_begin w0) as [Hst Hre].
    set (w1 := next_suspension (effect RecorderBegin w0)) in *.
    rewrite (bind_throws _ _ _ _ _ _ _
               (eq_trans (await_call env w1 PlayerConnect)
                         ltac:(by rewrite Hp))).
    rewrite (delivered_paused _ _ Hst).
    unfold outcome_of, trace_of, world_of. simpl fst. simpl snd.
    split; [done|]. split; [done|]. split.
    + by rewrite recorderStatus_next_suspension.
    + apply Hset. by rewrite react_next_suspension, Hre.
  - intros Hb Hp Hc.
    rewrite (bind_returns _ _ _ _ _ _ _
               (eq_trans (await_call env w0 RecorderBegin)
                         ltac:(by rewrite Hb))).
    rewrite delivered_after_begin.
    destruct (paused_after_begin w0) as [Hst Hre].
    set (w1 := next_suspension (effect RecorderBegin w0)) in *.
    rewrite (bind_returns _ _ _ _ _ _ _
               (eq_trans (await_call env w1 PlayerConnect)
                         ltac:(by rewrite Hp))).
    set (w2 := next_suspension (effect PlayerConnect w1)) in *.
    assert (Hw2 : recorderStatus w2 = paused ∧ playerConnected w2 = true
                  ∧ react w2 = react w0).
    { subst w2. rewrite <- Hre, <- Hst. by destruct w1. }
    destruct Hw2 as (Hst2 & Hpl2 & Hre2).
    rewrite (bind_throws _ _ _ _ _ _ _
               (eq_trans (await_call env w2 ClientConnect)
                         ltac:(by rewrite Hc))).
    rewrite (delivered_paused env w2 Hst2).
    assert (Hd1 : delivered env (effect PlayerConnect w1) = []).
    { apply delivered_paused. rewrite <- Hst. by destruct w1. }
    rewrite Hd1.
    unfold outcome_of, trace_of, world_of. simpl fst. simpl snd.
    split; [done|]. split; [done|]. split; [|split].
    + by rewrite recorderStatus_next_suspension.
    + rewrite <- Hpl2. by destruct w2.
    + apply Hset. by rewrite react_next_suspension, Hre2.
Qed.

Lemma connect_failure_propagates_without_unwinding_witness :
  outcome_of (connectConversation
                (failing PlayerConnect (Raised "no audio output") quiet) finished)
    = Throws (Raised "no audio output")
  ∧ trace_of (connectConversation
                (failing PlayerConnect (Raised "no audio output") quiet) finished)
    = [RecorderBegin; PlayerConnect]
  ∧ recorderStatus (world_of (connectConversation
                (failing PlayerConnect (Raised "no audio output") quiet) finished))
    = paused
  ∧ session_state_set finished
      (world_of (connectConversation
                   (failing PlayerConnect (Raised "no audio output") quiet) finished)).
Proof.
  destruct (connect_failure_propagates_without_unwinding
              (failing PlayerConnect (Raised "no audio output") quiet) finished
              (Raised "no audio output")) as (_ & H & _).
  apply H; reflexivity.
Defined.

(** C5 as stated fails: when the player's [connect] fails, the recorder
    opened before it is still open and [isConnected] is still true. *)
Lemma failed_connect_is_not_unwound :
  ¬ unwound_on_failure (failing PlayerConnect (Raised "no audio output") quiet) idle.
Proof.
  intros H. destruct (H (Raised "no audio output") eq_refl) as [Hrec _].
  vm_compute in Hrec. discriminate Hrec.
Qed.

(** The body of [deleteConversationItem] does what the guard says for the
    state it closes over. *)
Lemma deleteConversationItem_callback_guard (captured : ReactState) item env w :
  deleteConversationItem_callback captured item env w =
    if isConnected captured
    then (match fails env (ClientDeleteItem item) with
          | Some e => (w, [ClientDeleteItem item], Throws e)
          | None => (w, [ClientDeleteItem item], Returns tt)
          end)
    else (w, [], Returns tt).
Proof.
  unfold deleteConversationItem_callback, call.
  destruct (isConnected captured); simpl; [|done].
  by destruct (fails env (ClientDeleteItem item)).
Qed.

(** The memoized handler closes over the first render, where
    [isConnected] is [false]: it never reaches [client.deleteItem]. *)
Lemma deleteConversationItem_stale env w item :
  deleteConversationItem item env w = (w, [], Returns tt).
Proof.
  unfold deleteConversationItem, rendered, useCallback_no_deps.
  by rewrite deleteConversationItem_callback_guard.
Qed.

(** C7 (defect). In a connected session, deleting item ["a1"] calls
    nothing on the client, although a handler closing over the current
    state would forward the removal; when disconnected the call is the
    no-op the claim describes, and the local item list is never touched
    by the call. *)
Theorem deleteConversationItem_connected_does_nothing :
  isConnected (react in_session) = true
  ∧ deleteConversationItem "a1" quiet in_session = (in_session, [], Returns tt)
  ∧ closure deleteConversationItem_callback (react in_session) "a1" quiet in_session
    = (in_session, [ClientDeleteItem "a1"], Returns tt)
  ∧ ¬ deletes_as_specified "a1" quiet in_session
  ∧ deletes_as_specified "a1" quiet finished.
Proof.
  split; [done|]. split; [by rewrite deleteConversationItem_stale|].
  split; [done|]. split.
  - intros [H _]. rewrite deleteConversationItem_stale in H. discriminate H.
  - split; by rewrite deleteConversationItem_stale.
Qed.

End Session.

(** ** The turn-taking controller *)

Section TurnTaking.

Implicit Types (env : Env) (w : World) (value : string).

(** The calls of [changeTurnEndType], microphone frames aside. *)
Lemma changeTurnEndType_calls env w value :
  only not_append (trace_of (changeTurnEndType value env w)) =
    let pausing :=
      String.eqb value "none" && bool_decide (recorderStatus w = recording) in
    (if pausing then [RecorderPause] else [])
    ++ (if pausing && bool_decide (is_Some (fails env RecorderPause)) then []
        else turn_update value
             :: (if bool_decide (is_Some (fails env (turn_update value))) then []
                 else if String.eqb value "server_vad" && clientConnected w
                      then [RecorderRecord] else [])).
Proof.
  unfold changeTurnEndType, turn_update. rewrite bind_read. cbv zeta.
  destruct w as [re st rs pc cc td cv hp sp]. cbn [recorderStatus clientConnected].
  unfold trace_of, only, bind, await, call, suspend, read, ret, setState, update.
  destruct (String.eqb value "none") eqn:Hnone;
    destruct (bool_decide (rs = recording)) eqn:Hrec; cbn [andb];
    destruct (fails env RecorderPause) eqn:Hpause;
    destruct (fails env (ClientUpdateSession _)) eqn:Hupd;
    destruct (String.eqb value "server_vad") eqn:Hvad;
    destruct cc; cbn -[delivered];
    try destruct (fails env RecorderRecord) eqn:Hrecord; cbn -[delivered];
    repeat (rewrite ?List.filter_app, ?filter_delivered; cbn -[delivered]);
    done.
Qed.

(** C8. Switching the turn mode: with value ["none"] while the capture
    device is recording, the first call is the one [pause], the session
    update follows it, and there is no response request and no [record];
    with value ["server_vad"] while the client is connected, the session
    update is followed by [record]; in every other state neither [pause]
    nor [record] is called. No switch requests a response. *)
Theorem changeTurnEndType_pauses_or_restarts env w value :
  (value = "none" → recorderStatus w = recording →
     only not_append (trace_of (changeTurnEndType value env w))
       = RecorderPause
         :: (if bool_decide (is_Some (fails env RecorderPause)) then []
             else [turn_update "none"])
     ∧ calls (is_call RecorderPause) (trace_of (changeTurnEndType value env w)) = 1%nat
     ∧ calls (is_call RecorderRecord) (trace_of (changeTurnEndType value env w)) = 0%nat)
  ∧ (value = "server_vad" → clientConnected w = true →
     fails env (turn_update value) = None →
     only not_append (trace_of (changeTurnEndType value env w))
       = [turn_update "server_vad"; RecorderRecord])
  ∧ (¬ (value = "none" ∧ recorderStatus w = recording) →
     ¬ (value = "server_vad" ∧ clientConnected w = true) →
     calls (is_call RecorderPause) (trace_of (changeTurnEndType value env w)) = 0%nat
     ∧ calls (is_call RecorderRecord) (trace_of (changeTurnEndType value env w)) = 0%nat)
  ∧ calls (is_call ClientCreateResponse) (trace_of (changeTurnEndType value env w))
    = 0%nat.
Proof.
  rewrite !(calls_skip_frames _ (trace_of _)) by done.
  rewrite changeTurnEndType_calls. cbv zeta.
  split; [|split; [|split]].
  - intros -> ->. simpl.
    destruct (bool_decide (is_Some (fails env RecorderPause))); simpl;
      [done|].
    by destruct (bool_decide (is_Some (fails env (turn_update "none")))).
  - intros -> -> ->. done.
  - intros Hnone Hvad.
    destruct (String.eqb_spec value "none") as [Hn|Hn];
      destruct (String.eqb_spec value "server_vad") as [Hv|Hv];
      subst; try discriminate; simpl.
    + destruct (bool_decide_reflect (recorderStatus w = recording));
        [by destruct Hnone|]. simpl.
      by destruct (bool_decide (is_Some (fails env (turn_update "none")))).
    + destruct (clientConnected w); [by destruct Hvad|].
      by destruct (bool_decide (is_Some (fails env (turn_update _)))).
    + by destruct (bool_decide (is_Some (fails env (turn_update _)))).
  - destruct (String.eqb value "none" && _); simpl;
      destruct (bool_decide (is_Some (fails env RecorderPause))); simpl; try done;
      destruct (bool_decide (is_Some (fails env (turn_update value)))); simpl;
      try done;
      by destruct (String.eqb value "server_vad" && _).
Qed.

Lemma changeTurnEndType_pauses_or_restarts_witness :
  (only not_append (trace_of (changeTurnEndType "none" quiet capturing))
     = [RecorderPause; turn_update "none"]
   ∧ calls (is_call RecorderPause) (trace_of (changeTurnEndType "none" quiet capturing))
     = 1%nat
   ∧ calls (is_call RecorderRecord) (trace_of (changeTurnEndType "none" quiet capturing))
     = 0%nat)
  ∧ only not_append (trace_of (changeTurnEndType "server_vad" quiet in_session))
    = [turn_update "server_vad"; RecorderRecord]
  ∧ (calls (is_call RecorderPause) (trace_of (changeTurnEndType "none" quiet in_session))
     = 0%nat
     ∧ calls (is_call RecorderRecord) (trace_of (changeTurnEndType "none" quiet in_session))
       = 0%nat).
Proof.
  split; [|split].
  - destruct (changeTurnEndType_pauses_or_restarts quiet capturing "none")
      as (H & _).
    apply H; reflexivity.
  - destruct (changeTurnEndType_pauses_or_restarts quiet in_session "server_vad")
      as (_ & H & _).
    apply H; reflexivity.
  - destruct (changeTurnEndType_pauses_or_restarts quiet in_session "none")
      as (_ & _ & H & _).
    apply H; intros [H1 H2]; discriminate.
Defined.

End TurnTaking.

(** ** The memory tool *)

Section Memory.

Implicit Types (env : Env) (w : World) (key value : string)
  (m : gmap string string).

Lemma set_memory_run key value env w :
  set_memory key value env w =
    (with_react (λ s, setMemoryKv (assign (memoryKv s) key value) s) w, [],
     Returns {| ok := true |}).
Proof. unfold set_memory. by rewrite bind_setState. Qed.

Lemma memoryKv_set_memory key value env w :
  memoryKv (react (world_of (set_memory key value env w)))
    = assign (memoryKv (react w)) key value.
Proof. rewrite set_memory_run. by destruct w as [[] ]. Qed.

(** Every key other than ["__proto__"] is bound as asked, the other keys
    keep their value and none is removed. *)
Lemma set_memory_binds key value env w :
  key ≠ "__proto__" →
  outcome_of (set_memory key value env w) = Returns {| ok := true |}
  ∧ memoryKv (react (world_of (set_memory key value env w)))
    = <[key := value]> (memoryKv (react w))
  ∧ memoryKv (react (world_of (set_memory key value env w))) !! key = Some value
  ∧ (∀ other, other ≠ key →
       memoryKv (react (world_of (set_memory key value env w))) !! other
         = memoryKv (react w) !! other)
  ∧ dom (memoryKv (react w))
    ⊆ dom (memoryKv (react (world_of (set_memory key value env w)))).
Proof.
  intros Hkey. rewrite memoryKv_set_memory. unfold assign.
  destruct (String.eqb_spec key "__proto__") as [|_]; [done|].
  split; [by rewrite set_memory_run|]. split; [done|].
  split; [by rewrite lookup_insert_eq|].
  split; [intros other Hne; by rewrite lookup_insert_ne|].
  rewrite dom_insert_L. set_solver.
Qed.

(** Whatever the key, the other keys keep their value and none is
    removed. *)
Lemma set_memory_frame key value env w other :
  other ≠ key →
  memoryKv (react (world_of (set_memory key value env w))) !! other
    = memoryKv (react w) !! other.
Proof.
  intros Hne. rewrite memoryKv_set_memory. unfold assign.
  destruct (String.eqb key "__proto__"); [done|].
  by rewrite lookup_insert_ne.
Qed.

(** C10 (defect). Saving under the key ["__proto__"] answers [{ok: true}]
    but binds nothing: the memory is as it was, with no entry for the
    key, whereas any other key, for instance ["name"], is bound. *)
Theorem set_memory_proto_binds_nothing :
  outcome_of (set_memory "__proto__" "x" quiet idle) = Returns {| ok := true |}
  ∧ memoryKv (react (world_of (set_memory "__proto__" "x" quiet idle)))
    = memoryKv (react idle)
  ∧ memoryKv (react (world_of (set_memory "__proto__" "x" quiet idle)))
      !! "__proto__" = None
  ∧ ¬ binds_as_specified "__proto__" "x" quiet idle
  ∧ binds_as_specified "name" "Ada" quiet idle.
Proof.
  rewrite !memoryKv_set_memory.
  split; [done|]. split; [done|]. split; [done|]. split.
  - intros [_ H]. rewrite memoryKv_set_memory in H.
    apply (f_equal (λ m : gmap string string, m !! "__proto__")) in H.
    rewrite lookup_insert_eq in H. discriminate H.
  - split; [done|]. by rewrite memoryKv_set_memory.
Qed.

End Memory.

(** ** The clock of the event log *)

Section FormatTime.

Implicit Types (valueOf : string → option Z) (n delta : Z).

Lemma pad_reads_back_below_100 n : 0 ≤ n < 100 → pad_reads_back n = true.
Proof.
  intros Hn.
  assert (Hall : forallb pad_reads_back (seqZ 0 100) = true) by by vm_compute.
  rewrite forallb_forall in Hall. apply Hall.
  apply list_elem_of_In, elem_of_seqZ. lia.
Qed.

Lemma pad_two_digits n :
  0 ≤ n < 100 →
  ∃ a b, pad n = String a (String b EmptyString) ∧ two_digits a b = Some n.
Proof.
  intros Hn. pose proof (pad_reads_back_below_100 n Hn) as H.
  unfold pad_reads_back in H.
  destruct (pad n) as [|a [|b [|c s]]]; try discriminate H.
  exists a, b. split; [done|]. by apply bool_decide_eq_true in H.
Qed.

(** The fields of a time that is not before the start. *)
Lemma fields_in_range delta :
  0 ≤ delta →
  0 ≤ Z.rem (delta / 60000) 60 < 100
  ∧ 0 ≤ Z.rem (delta / 1000) 60 < 100
  ∧ 0 ≤ Z.rem (delta / 10) 100 < 100
  ∧ (Z.rem (delta / 60000) 60 * 60 + Z.rem (delta / 1000) 60) * 100
      + Z.rem (delta / 10) 100
    = (delta / 10) mod 360000.
Proof.
  intros Hd. Z.to_euclidean_division_equations. lia.
Qed.

(** X1. For two instants a [Date] can hold, the timestamp not before the
    start and less than 2^53 ms after it, [formatTime] gives eight
    characters, two digits for each
    of minutes, seconds and hundredths with [:] and [.] between them, and
    they read back as the elapsed hundredths of a second within the
    hour. *)
Theorem formatTime_reads_back valueOf startTime timestamp (t0 t1 : Z) :
  valueOf startTime = Some t0 →
  valueOf timestamp = Some t1 →
  Z.abs t0 ≤ date_limit →
  Z.abs t1 ≤ date_limit →
  t0 ≤ t1 →
  t1 - t0 < exact_below →
  ∃ shown,
    formatTime valueOf startTime timestamp = Some shown
    ∧ String.length shown = 8%nat
    ∧ unformat shown = Some (((t1 - t0) / 10) mod 360000).
Proof.
  intros H0 H1 Hd0 Hd1 Hle Hlt. unfold formatTime. rewrite H0, H1. cbv zeta.
  destruct (Z.leb_spec (Z.abs t0) date_limit) as [_|Hgt]; [|lia].
  destruct (Z.leb_spec (Z.abs t1) date_limit) as [_|Hgt]; [|lia].
  destruct (Z.ltb_spec (Z.abs (t1 - t0)) exact_below) as [_|Hge]; [|lia].
  cbn [andb].
  destruct (fields_in_range (t1 - t0)) as (Hm & Hs & Hh & Hsum); [lia|].
  destruct (pad_two_digits _ Hm) as (m1 & m2 & -> & Hm').
  destruct (pad_two_digits _ Hs) as (s1 & s2 & -> & Hs').
  destruct (pad_two_digits _ Hh) as (h1 & h2 & -> & Hh').
  eexists. split; [reflexivity|]. split; [done|].
  cbv [String.append]. cbv [unformat].
  replace (bool_decide (_ = colon)) with true by by vm_compute.
  replace (bool_decide (_ = dot)) with true by by vm_compute.
  cbn [andb]. rewrite Hm', Hs', Hh'. simpl. by rewrite Hsum.
Qed.

Lemma formatTime_reads_back_witness :
  formatTime sample_clock "start" "2024-10-05T00:01:01.230Z" = Some "01:01.23"
  ∧ ∃ shown,
      formatTime sample_clock "start" "2024-10-05T00:01:01.230Z" = Some shown
      ∧ String.length shown = 8%nat
      ∧ unformat shown = Some (((61230 - 0) / 10) mod 360000).
Proof.
  split; [reflexivity|].
  apply (formatTime_reads_back sample_clock "start" "2024-10-05T00:01:01.230Z"
           0 61230);
    [reflexivity | reflexivity | by vm_compute | by vm_compute | lia
    | by vm_compute].
Defined.

(** X2. The clock of the log wraps after an hour: for instants a [Date]
    can hold, a timestamp that is not before the start and the one
    3600000 ms after it, both less than 2^53 ms after the start, are
    formatted alike. *)
Theorem formatTime_wraps_after_an_hour valueOf startTime timestamp later (t0 t1 : Z) :
  valueOf startTime = Some t0 →
  valueOf timestamp = Some t1 →
  valueOf later = Some (t1 + 3600000) →
  Z.abs t0 ≤ date_limit →
  Z.abs t1 ≤ date_limit →
  Z.abs (t1 + 3600000) ≤ date_limit →
  t0 ≤ t1 →
  t1 + 3600000 - t0 < exact_below →
  is_Some (formatTime valueOf startTime timestamp)
  ∧ formatTime valueOf startTime later = formatTime valueOf startTime timestamp.
Proof.
  intros H0 H1 H2 Hd0 Hd1 Hd2 Hle Hlt.
  unfold formatTime. rewrite H0, H1, H2. cbv zeta.
  destruct (Z.leb_spec (Z.abs t0) date_limit) as [_|Hgt]; [|lia].
  destruct (Z.leb_spec (Z.abs t1) date_limit) as [_|Hgt]; [|lia].
  destruct (Z.leb_spec (Z.abs (t1 + 3600000)) date_limit) as [_|Hgt]; [|lia].
  destruct (Z.ltb_spec (Z.abs (t1 - t0)) exact_below) as [_|Hge]; [|lia].
  destruct (Z.ltb_spec (Z.abs (t1 + 3600000 - t0)) exact_below) as [_|Hge]; [|lia].
  cbn [andb]. clear Hd0 Hd1 Hd2.
  split; [by eexists|].
  assert (Z.rem ((t1 + 3600000 - t0) / 60000) 60 = Z.rem ((t1 - t0) / 60000) 60
          ∧ Z.rem ((t1 + 3600000 - t0) / 1000) 60 = Z.rem ((t1 - t0) / 1000) 60
          ∧ Z.rem ((t1 + 3600000 - t0) / 10) 100 = Z.rem ((t1 - t0) / 10) 100)
    as (-> & -> & ->); [|done].
  clear Hlt. Z.to_euclidean_division_equations. lia.
Qed.

Lemma formatTime_wraps_after_an_hour_witness :
  is_Some (formatTime sample_clock "start" "2024-10-05T00:01:01.230Z")
  ∧ formatTime sample_clock "start" "later"
    = formatTime sample_clock "start" "2024-10-05T00:01:01.230Z".
Proof.
  apply (formatTime_wraps_after_an_hour sample_clock "start"
           "2024-10-05T00:01:01.230Z" "later" 0 61230);
    [reflexivity | reflexivity | reflexivity | by vm_compute | by vm_compute
    | by vm_compute | lia | by vm_compute].
Defined.

End FormatTime.

(** ** The event log over a run of events *)

Section EventLogRuns.

Implicit Types (log : list RealtimeEvent) (e l : RealtimeEvent).

(** The four ways [record] can go. *)
Lemma record_cases log e :
  (log = [] ∧ type_ (event e) = None ∧ record log e = Throws TypeError)
  ∨ (log = [] ∧ type_ (event e) ≠ None ∧ record log e = Returns [e])
  ∨ (∃ pre l, log = pre ++ [l] ∧ type_ (event l) ≠ type_ (event e)
       ∧ record log e = Returns (pre ++ [l; e]))
  ∨ (∃ pre l, log = pre ++ [l] ∧ type_ (event l) = type_ (event e)
       ∧ record log e
         = Returns (pre ++ [set_count (Some (or_zero (count l) + 1)) l])).
Proof.
  destruct log as [|l log _] using rev_ind.
  - rewrite record_empty. destruct (decide _); [left | right; left]; done.
  - right. right.
    destruct (decide (type_ (event l) = type_ (event e))) as [Heq|Hne].
    + right. exists log, l. split; [done|]. split; [done|].
      rewrite (record_same_type _ l); [|by rewrite last_snoc|done].
      by rewrite slice_0_neg1_snoc.
    + left. exists log, l. split; [done|]. split; [done|].
      rewrite (record_other_type _ l); [|by rewrite last_snoc|done].
      by rewrite <- app_assoc.
Qed.

(** X3. Recording never shortens the log and adds at most one entry; it
    leaves every entry before the last as it is; and the last entry of
    the new log has the type of the event just recorded. *)
Theorem record_touches_only_the_end log e log' :
  record log e = Returns log' →
  (length log ≤ length log' ≤ S (length log))%nat
  ∧ (∀ i : nat, (S i < length log)%nat → log' !! i = log !! i)
  ∧ (λ x, type_ (event x)) <$> last log' = Some (type_ (event e)).
Proof.
  intros Hrec.
  destruct (record_cases log e)
    as [(_ & _ & H) | [(-> & _ & H) | [(pre & l & -> & _ & H)
       | (pre & l & -> & Heq & H)]]];
    rewrite H in Hrec; try discriminate Hrec; injection Hrec as <-.
  - simpl. repeat split; [lia | lia | intros i Hi; simpl in Hi; lia].
  - rewrite !length_app. simpl. repeat split; [lia | lia | |].
    + intros i Hi. rewrite ?length_app in Hi. simpl in Hi.
      rewrite !lookup_app_l by lia. done.
    + change (pre ++ [l; e]) with (pre ++ [l] ++ [e]).
      by rewrite app_assoc, last_snoc.
  - rewrite !length_app. simpl. repeat split; [lia | lia | |].
    + intros i Hi. rewrite ?length_app in Hi. simpl in Hi.
      rewrite !lookup_app_l by lia. done.
    + rewrite last_snoc. simpl. by rewrite Heq.
Qed.

Lemma record_touches_only_the_end_witness :
  (2 ≤ 2 ≤ 3)%nat
  ∧ (∀ i : nat, (S i < 2)%nat →
       [ev client "a"; set_count (Some 1) (ev server "b")] !! i
       = [ev client "a"; ev server "b"] !! i)
  ∧ (λ x, type_ (event x))
      <$> last [ev client "a"; set_count (Some 1) (ev server "b")]
    = Some (type_ (event (ev client "b"))).
Proof.
  apply (record_touches_only_the_end [ev client "a"; ev server "b"] (ev client "b")
           [ev client "a"; set_count (Some 1) (ev server "b")]).
  reflexivity.
Defined.

Lemma run_updaters_app (us vs : list Updater) log :
  run_updaters (us ++ vs) log =
    match run_updaters us log with
    | Returns log' => run_updaters vs log'
    | Throws err => Throws err
    end.
Proof.
  revert log. induction us as [|u us IH]; intros log; [done|].
  simpl. by destruct (u log).
Qed.

(** A batch of events handled before one render is recorded in its
    order. *)
Lemma queued_handled events env s :
  committed (handled events env s) = committed s
  ∧ ∀ log, run_updaters (queued (handled events env s)) log =
      match run_updaters (queued s) log with
      | Returns log' => record_all log' events
      | Throws err => Throws err
      end.
Proof.
  revert s. induction events as [|e events IH]; intros s.
  - split; [done|]. intros log. simpl. by destruct (run_updaters _ log).
  - destruct (IH (on_realtime_event e env s).1.1) as [Hc Hq].
    change (handled (e :: events) env s)
      with (handled events env (on_realtime_event e env s).1.1).
    split; [by rewrite Hc|]. intros log. rewrite Hq.
    unfold on_realtime_event at 1. cbn [fst queued].
    rewrite run_updaters_app. simpl.
    destruct (run_updaters (queued s) log) as [log1|]; [|done].
    by destruct (record log1 e).
Qed.

(** X4. The handler of [realtime.event] prints the event to the console,
    queues the update of the log and returns: it calls nothing else,
    never throws and leaves the state to the next render. That render
    fails only for an event without a type arriving on an empty log, with
    the [TypeError] of the updater; in every other case it succeeds, and
    the log is the only thing it changes. *)
Theorem realtime_event_fails_only_on_first_typeless e env (s : Scheduled) :
  (on_realtime_event e env s).2 = Returns tt
  ∧ (on_realtime_event e env s).1.2 = [ConsoleLog e]
  ∧ committed (on_realtime_event e env s).1.1 = committed s
  ∧ (queued s = [] → realtimeEvents (react (committed s)) = [] →
     type_ (event e) = None →
     render (on_realtime_event e env s).1.1 = Throws TypeError)
  ∧ (queued s = [] →
     realtimeEvents (react (committed s)) ≠ [] ∨ type_ (event e) ≠ None →
     ∃ log', record (realtimeEvents (react (committed s))) e = Returns log'
       ∧ render (on_realtime_event e env s).1.1
         = Returns {| committed := with_react (setRealtimeEvents log') (committed s);
                      queued := [] |}).
Proof.
  split; [done|]. split; [done|]. split; [done|].
  assert (Hrender : queued s = [] →
    render (on_realtime_event e env s).1.1 =
      match record (realtimeEvents (react (committed s))) e with
      | Returns log' =>
          Returns {| committed := with_react (setRealtimeEvents log') (committed s);
                     queued := [] |}
      | Throws err => Throws err
      end).
  { intros Hq. unfold render, on_realtime_event. simpl. rewrite Hq. simpl.
    by destruct (record _ e). }
  destruct (record_cases (realtimeEvents (react (committed s))) e)
    as [(Hnil & Hty & H) | [(Hnil & Hty & H) | [(pre & l & Hlog & Hty & H)
       | (pre & l & Hlog & Hty & H)]]].
  - split; [intros Hq _ _; by rewrite (Hrender Hq), H|].
    intros _ [Hne|Hne]; by destruct Hne.
  - split; [intros _ _ Hn; by destruct Hty|].
    intros Hq _. eexists. split; [exact H|]. by rewrite (Hrender Hq), H.
  - split; [intros _ Hn; rewrite Hn in Hlog; by destruct pre|].
    intros Hq _. eexists. split; [exact H|]. by rewrite (Hrender Hq), H.
  - split; [intros _ Hn; rewrite Hn in Hlog; by destruct pre|].
    intros Hq _. eexists. split; [exact H|]. by rewrite (Hrender Hq), H.
Qed.

Lemma realtime_event_fails_only_on_first_typeless_witness :
  render (on_realtime_event (mkRealtimeEvent "t" server None (mkPayload None "{}"))
            quiet {| committed := idle; queued := [] |}).1.1
    = Throws TypeError
  ∧ ∃ log', record (realtimeEvents (react idle)) (ev server "a") = Returns log'
      ∧ render (on_realtime_event (ev server "a") quiet
                  {| committed := idle; queued := [] |}).1.1
        = Returns {| committed := with_react (setRealtimeEvents log') idle;
                     queued := [] |}.
Proof.
  split.
  - destruct (realtime_event_fails_only_on_first_typeless
                (mkRealtimeEvent "t" server None (mkPayload None "{}")) quiet
                {| committed := idle; queued := [] |}) as (_ & _ & _ & H & _).
    apply H; reflexivity.
  - destruct (realtime_event_fails_only_on_first_typeless
                (ev server "a") quiet {| committed := idle; queued := [] |})
      as (_ & _ & _ & _ & H).
    apply H; [reflexivity|]. right. by vm_compute.
Defined.

Lemma compact_snoc_other pre l e :
  compact (pre ++ [l]) → type_ (event l) ≠ type_ (event e) →
  compact (pre ++ [l; e]).
Proof.
  induction pre as [|a pre IH]; [by simpl|].
  destruct pre as [|b pre]; simpl in *; [by intros [? _] ?|].
  intros [Hab Hrest] Hne. split; [done|]. by apply IH.
Qed.

Lemma compact_snoc_same pre l l' :
  compact (pre ++ [l]) → type_ (event l') = type_ (event l) →
  compact (pre ++ [l']).
Proof.
  induction pre as [|a pre IH]; [by simpl|].
  destruct pre as [|b pre]; simpl in *; [intros [? _] Heq; by rewrite Heq|].
  intros [Hab Hrest] Heq. split; [done|]. by apply IH.
Qed.

Lemma record_compact log e log' :
  compact log → record log e = Returns log' → compact log'.
Proof.
  intros Hc Hrec.
  destruct (record_cases log e)
    as [(_ & _ & H) | [(-> & _ & H) | [(pre & l & -> & Hne & H)
       | (pre & l & -> & Heq & H)]]];
    rewrite H in Hrec; try discriminate Hrec; injection Hrec as <-.
  - done.
  - by apply compact_snoc_other.
  - by apply (compact_snoc_same pre l).
Qed.

Lemma collapse_compact log : compact log → collapse (types_of log) = types_of log.
Proof.
  induction log as [|a log IH]; [done|].
  destruct log as [|b log]; [done|].
  intros [Hab Hrest]. cbn [types_of fmap list_fmap collapse].
  destruct (decide _) as [Heq|_]; [by destruct Hab|].
  f_equal. by apply IH.
Qed.

Lemma collapse_cons (x y : option string) (l : list (option string)) :
  collapse (x :: y :: l) =
    if decide (x = y) then collapse (y :: l) else x :: collapse (y :: l).
Proof. done. Qed.

Lemma collapse_repeated (xs rest : list (option string)) (a : option string) :
  collapse (xs ++ a :: a :: rest) = collapse (xs ++ a :: rest).
Proof.
  induction xs as [|x xs IH].
  - cbn [app]. rewrite collapse_cons. destruct (decide (a = a)); [done|congruence].
  - destruct xs as [|y xs].
    + cbn [app] in *. rewrite !(collapse_cons x a), IH. done.
    + cbn [app] in *. rewrite !(collapse_cons x y). by rewrite IH.
Qed.

Lemma types_of_app log log' : types_of (log ++ log') = types_of log ++ types_of log'.
Proof. apply fmap_app. Qed.

(** X5. The log never holds two neighbouring entries of the same type: a
    log that has none keeps none, whatever events are recorded. The types
    of the new log are those of the old log followed by those of the
    events, with every run of equal neighbours collapsed to one; so the
    log built from the empty one has exactly one entry for each run of
    events of one type. *)
Theorem record_all_keeps_log_compact events log log' :
  compact log → record_all log events = Returns log' →
  compact log'
  ∧ types_of log' = collapse (types_of log ++ types_of events)
  ∧ (log = [] → length log' = length (collapse (types_of events))).
Proof.
  intros Hc Hrec.
  assert (Hmain : compact log' ∧ types_of log' = collapse (types_of log ++ types_of events)).
  { revert log Hc Hrec. induction events as [|e events IH]; intros log Hc Hrec.
    - simpl in Hrec. injection Hrec as <-. split; [done|].
      simpl. by rewrite app_nil_r, collapse_compact.
    - simpl in Hrec. destruct (record log e) as [log1|err] eqn:H1; [|done].
      destruct (IH log1 (record_compact log e log1 Hc H1) Hrec) as [Hc' Hty].
      split; [done|]. rewrite Hty.
      destruct (record_cases log e)
        as [(_ & _ & H) | [(-> & _ & H) | [(pre & l & -> & Hne & H)
           | (pre & l & -> & Heq & H)]]];
        rewrite H in H1; try discriminate H1; injection H1 as <-.
      + done.
      + change (pre ++ [l; e]) with (pre ++ [l] ++ [e]).
        rewrite app_assoc, (types_of_app (pre ++ [l]) [e]).
        by rewrite <- app_assoc.
      + rewrite !types_of_app, <- !app_assoc.
        cbn [types_of fmap list_fmap app event set_count].
        by rewrite Heq, collapse_repeated. }
  destruct Hmain as [Hc' Hty]. split; [done|]. split; [done|].
  intros ->. unfold types_of in Hty at 1.
  apply (f_equal length) in Hty. by rewrite length_fmap in Hty.
Qed.

Lemma record_all_keeps_log_compact_witness :
  record_all [] [ev server "a"; ev server "a"; ev client "b"; ev server "a"]
    = Returns [set_count (Some 1) (ev server "a"); ev client "b"; ev server "a"]
  ∧ compact [set_count (Some 1) (ev server "a"); ev client "b"; ev server "a"]
  ∧ types_of [set_count (Some 1) (ev server "a"); ev client "b"; ev server "a"]
    = [Some "a"; Some "b"; Some "a"]
  ∧ length [set_count (Some 1) (ev server "a"); ev client "b"; ev server "a"]
    = 3%nat.
Proof.
  split; [reflexivity|].
  destruct (record_all_keeps_log_compact
              [ev server "a"; ev server "a"; ev client "b"; ev server "a"] []
              [set_count (Some 1) (ev server "a"); ev client "b"; ev server "a"])
    as (H1 & H2 & H3); [exact I | reflexivity |].
  split; [exact H1|]. split; [exact H2|]. by apply H3.
Defined.





End EventLogRuns.

(** ** Push to talk *)

Section PushToTalk.

Implicit Types (env : Env) (w : World).

Lemma stopRecording_run env w :
  stopRecording env w =
    let w1 := with_react (setIsRecording false) w in
    match fails env RecorderPause with
    | Some e => (next_suspension w1, RecorderPause :: delivered env w1, Throws e)
    | None =>
        (next_suspension (effect RecorderPause w1),
         [RecorderPause; ClientCreateResponse],
         match fails env ClientCreateResponse with
         | Some e => Throws e
         | None => Returns tt
         end)
    end.
Proof.
  unfold stopRecording. rewrite bind_setState. cbv zeta.
  unfold bind. rewrite await_call.
  destruct (fails env RecorderPause); [done|].
  unfold call. destruct w as [re st rs pc cc td cv hp sp].
  by destruct (fails env ClientCreateResponse).
Qed.

(** X7. [stopRecording] requests a response only once the capture has
    been paused: when [pause] fails no response is requested, and when it
    succeeds the handler forwards no frame at all and leaves the device
    paused. In both cases [isRecording] is false afterwards. *)
Theorem stopRecording_requests_response_after_pause env w :
  isRecording (react (world_of (stopRecording env w))) = false
  ∧ only not_append (trace_of (stopRecording env w))
    = RecorderPause
      :: (if bool_decide (is_Some (fails env RecorderPause)) then []
          else [ClientCreateResponse])
  ∧ (fails env RecorderPause = None →
     trace_of (stopRecording env w) = [RecorderPause; ClientCreateResponse]
     ∧ recorderStatus (world_of (stopRecording env w)) = paused).
Proof.
  rewrite stopRecording_run. cbv zeta.
  destruct (fails env RecorderPause) as [e|] eqn:Hp;
    unfold world_of, trace_of; simpl fst; simpl snd.
  - split; [by destruct w as [[] ]|]. split; [|done].
    unfold only. simpl. by rewrite filter_delivered.
  - split; [by destruct w as [[] ]|]. split; [done|].
    intros _. split; [done|]. by destruct w.
Qed.

Lemma stopRecording_requests_response_after_pause_witness :
  trace_of (stopRecording (speaking [[1]] quiet) capturing)
    = [RecorderPause; ClientCreateResponse]
  ∧ recorderStatus (world_of (stopRecording (speaking [[1]] quiet) capturing)) = paused.
Proof.
  destruct (stopRecording_requests_response_after_pause (speaking [[1]] quiet) capturing)
    as (_ & _ & H).
  apply H. reflexivity.
Defined.

(** X8. A whole push-to-talk turn, [startRecording] then
    [stopRecording], from an idle capture device and with no call
    failing: playback is interrupted (and the response cancelled if a
    track was playing), then the capture starts, then the frames are
    forwarded, then the capture is paused, and last exactly one response
    is requested. Every forwarded frame lies between [record] and
    [pause]. *)
Theorem push_to_talk_turn env w r :
  recorderStatus w ≠ recording →
  (∀ c, fails env c = None) →
  interrupt_result env = Returns r →
  trace_of (and_then startRecording stopRecording env w)
    = PlayerInterrupt :: cancellation r
      ++ RecorderRecord
         :: (ClientAppendInputAudio
               <$> (frames_at env (S (length (cancellation r)) + suspensions w)
                    ++ frames_at env (S (S (length (cancellation r))) + suspensions w)))
      ++ [RecorderPause; ClientCreateResponse]
  ∧ outcome_of (and_then startRecording stopRecording env w) = Returns tt
  ∧ recorderStatus (world_of (and_then startRecording stopRecording env w)) = paused
  ∧ isRecording (react (world_of (and_then startRecording stopRecording env w)))
    = false.
Proof.
  intros Hidle Hf Hi.
  destruct w as [re st rs pc cc td cv hp sp].
  unfold and_then, startRecording, stopRecording, bind, await, interrupt,
    suspend, call, setState, update, delivered, trace_of, outcome_of, world_of.
  rewrite Hi. simpl in Hidle.
  destruct r as [[[T|] O]|]; cbn [mbind option_bind trackId];
    [destruct (truthy_string (Some T)) eqn:HT|..];
    rewrite ?Hf; destruct rs; try (by destruct Hidle); cbn;
    rewrite ?HT; cbn; rewrite ?fmap_app, ?app_nil_r, <- ?app_assoc;
    try (cbn in HT; rewrite HT; cbn);
    by destruct re.
Qed.

Lemma push_to_talk_turn_witness :
  trace_of (and_then startRecording stopRecording
              (speaking_at 2 [[5; 6]] (speaking_at 1 [[3; 4]] (playing "a1" 4800 quiet)))
              finished)
    = [PlayerInterrupt; ClientCancelResponse "a1" 4800; RecorderRecord;
       ClientAppendInputAudio [5; 6]; RecorderPause; ClientCreateResponse].
Proof.
  refine (proj1 (push_to_talk_turn
                   (speaking_at 2 [[5; 6]] (speaking_at 1 [[3; 4]] (playing "a1" 4800 quiet)))
                   finished
                   (Some {| trackId := Some "a1"; offset := 4800 |}) _ _ _));
    [by vm_compute | reflexivity | reflexivity].
Defined.

(** X27. A failed cancellation keeps the operator from speaking: when
    [cancelResponse] fails in [startRecording], the capture is never
    started and the device keeps its status, although [isRecording] has
    already been set. *)
Theorem startRecording_blocked_by_failed_cancel env w T O e :
  interrupt_result env = Returns (Some {| trackId := Some T; offset := O |}) →
  T ≠ "" →
  fails env (ClientCancelResponse T O) = Some e →
  outcome_of (startRecording env w) = Throws e
  ∧ calls (is_call RecorderRecord) (trace_of (startRecording env w)) = 0%nat
  ∧ recorderStatus (world_of (startRecording env w)) = recorderStatus w
  ∧ isRecording (react (world_of (startRecording env w))) = true.
Proof.
  intros Hi HT Hc. rewrite (startRecording_track _ _ _ _ Hi HT), Hc. cbv zeta.
  unfold outcome_of, trace_of, world_of, calls. simpl fst. simpl snd.
  split; [done|]. split; [|by destruct w as [[] ]].
  rewrite only_cons, only_app, only_cons. simpl.
  by rewrite !only_delivered.
Qed.

Lemma startRecording_blocked_by_failed_cancel_witness :
  outcome_of (startRecording
                (failing (ClientCancelResponse "a1" 4800) (Raised "no item")
                   (playing "a1" 4800 quiet)) finished)
    = Throws (Raised "no item")
  ∧ calls (is_call RecorderRecord)
      (trace_of (startRecording
                   (failing (ClientCancelResponse "a1" 4800) (Raised "no item")
                      (playing "a1" 4800 quiet)) finished))
    = 0%nat.
Proof.
  destruct (startRecording_blocked_by_failed_cancel
              (failing (ClientCancelResponse "a1" 4800) (Raised "no item")
                 (playing "a1" 4800 quiet)) finished "a1" 4800 (Raised "no item"))
    as (H1 & H2 & _); [reflexivity | by vm_compute | by vm_compute |].
  split; [exact H1 | exact H2].
Defined.

End PushToTalk.

(** ** Connecting and disconnecting *)

Section Lifecycle.

Implicit Types (env : Env) (w : World).

(** X9. [disconnectConversation] keeps the transcript: of the React
    cells it changes [isConnected] only (the items, the event log, the
    memory and the editor content stay), it leaves the conversation and
    its items alone, and it never requests a cancellation, even when the
    interruption reports a track. With no call failing it disconnects the
    client, ends the capture and interrupts playback, in this order. *)
Theorem disconnect_keeps_transcript env w :
  react (world_of (disconnectConversation env w)) = setIsConnected false (react w)
  ∧ heap (world_of (disconnectConversation env w)) = heap w
  ∧ conversation (world_of (disconnectConversation env w)) = conversation w
  ∧ calls is_cancel (trace_of (disconnectConversation env w)) = 0%nat
  ∧ ((∀ c, fails env c = None) →
     only not_append (trace_of (disconnectConversation env w))
       = [ClientDisconnect; RecorderEnd; PlayerInterrupt]
     ∧ recorderStatus (world_of (disconnectConversation env w)) = ended
     ∧ clientConnected (world_of (disconnectConversation env w)) = false).
Proof.
  destruct w as [re st rs pc cc td cv hp sp].
  unfold disconnectConversation, bind, await, interrupt, suspend, call,
    setState, update, ret, trace_of, world_of, calls, only.
  destruct (fails env ClientDisconnect) eqn:Hd; cbn -[delivered];
    [|destruct (fails env RecorderEnd) eqn:He; cbn -[delivered];
      [|destruct (interrupt_result env) eqn:Hi; cbn -[delivered]]];
    (split; [|split; [|split; [|split]]]);
    try (intros Hf; rewrite Hf in *; try discriminate);
    rewrite ?List.filter_app; cbn -[delivered];
    rewrite ?List.filter_app; cbn -[delivered];
    rewrite ?filter_delivered, ?(only_delivered is_cancel); try done.
Qed.

Lemma disconnect_keeps_transcript_witness :
  only not_append (trace_of (disconnectConversation (playing "a1" 4800 quiet) capturing))
    = [ClientDisconnect; RecorderEnd; PlayerInterrupt]
  ∧ recorderStatus (world_of (disconnectConversation (playing "a1" 4800 quiet) capturing))
    = ended
  ∧ clientConnected (world_of (disconnectConversation (playing "a1" 4800 quiet) capturing))
    = false.
Proof.
  destruct (disconnect_keeps_transcript (playing "a1" 4800 quiet) capturing)
    as (_ & _ & _ & _ & H).
  apply H. reflexivity.
Defined.

(** X10. Nothing is closed behind a failing [client.disconnect()]: the
    handler stops there, so [end()] and [interrupt()] are not called and
    the capture device keeps the status it had, although [isConnected] is
    already false. *)
Theorem disconnect_failure_leaves_capture_open env w e :
  fails env ClientDisconnect = Some e →
  outcome_of (disconnectConversation env w) = Throws e
  ∧ trace_of (disconnectConversation env w) = [ClientDisconnect]
  ∧ recorderStatus (world_of (disconnectConversation env w)) = recorderStatus w
  ∧ clientConnected (world_of (disconnectConversation env w)) = clientConnected w
  ∧ isConnected (react (world_of (disconnectConversation env w))) = false.
Proof.
  intros Hd. destruct w as [[] st rs pc cc td cv hp sp].
  unfold disconnectConversation, bind, call, setState, update,
    trace_of, world_of, outcome_of.
  by rewrite Hd.
Qed.

Lemma disconnect_failure_leaves_capture_open_witness :
  trace_of (disconnectConversation
              (failing ClientDisconnect (Raised "socket") quiet) capturing)
    = [ClientDisconnect]
  ∧ recorderStatus (world_of (disconnectConversation
              (failing ClientDisconnect (Raised "socket") quiet) capturing))
    = recording.
Proof.
  destruct (disconnect_failure_leaves_capture_open
              (failing ClientDisconnect (Raised "socket") quiet) capturing
              (Raised "socket")) as (_ & Ht & Hs & _); [reflexivity|].
  split; [exact Ht | exact Hs].
Defined.

Lemma seed_of_initial_state :
  interview_seed (interviewMessage (company initial_state) (persona initial_state))
                 (trim (customQuestion initial_state))
  = initial_seed.
Proof. by vm_compute. Qed.

(** X11. A connect in which no call fails opens the capture device, the
    playback engine and the client in this order, then sends one seed
    instruction, and starts the capture only in [server_vad] mode. The
    seed is the one of the initial configuration, whatever company,
    persona and question the current state holds. The event log and the
    memory are emptied, the editor content and the feedback are reset,
    and the item list is the client's. *)
Theorem connect_opens_and_seeds env w :
  (∀ c, fails env c = None) →
  only not_append (trace_of (connectConversation env w))
    = [RecorderBegin; PlayerConnect; ClientConnect;
       ClientSendUserMessageContent initial_seed]
      ++ (if decide (turnDetectionType w = Some "server_vad")
          then [RecorderRecord] else [])
  ∧ outcome_of (connectConversation env w) = Returns tt
  ∧ react (world_of (connectConversation env w))
    = setFeedback (mkFeedback 2 2 2 2)
        (setCode ""
           (setMemoryKv ∅
              (setItems (conversation w)
                 (setRealtimeEvents [] (setIsConnected true (react w))))))
  ∧ recorderStatus (world_of (connectConversation env w))
    = (if decide (turnDetectionType w = Some "server_vad")
       then recording else paused)
  ∧ playerConnected (world_of (connectConversation env w)) = true
  ∧ clientConnected (world_of (connectConversation env w)) = true.
Proof.
  intros Hf. destruct w as [re st rs pc cc td cv hp sp].
  unfold connectConversation, rendered, useCallback_no_deps,
    connectConversation_callback.
  rewrite seed_of_initial_state.
  rewrite bind_clock, bind_update, !bind_setState, bind_read, !bind_setState.
  unfold bind, await, suspend, call, read, ret, trace_of, world_of, outcome_of, only.
  rewrite !Hf. cbn -[delivered decide].
  destruct (decide (td = Some "server_vad")); rewrite ?Hf;
    repeat (rewrite ?List.filter_app, ?filter_delivered; cbn -[delivered]);
    done.
Qed.

Lemma connect_opens_and_seeds_witness :
  only not_append
    (trace_of (connectConversation quiet
                 (configured "Acme" "Strict" "Reverse a list" idle)))
    = [RecorderBegin; PlayerConnect; ClientConnect;
       ClientSendUserMessageContent initial_seed].
Proof.
  refine (proj1 (connect_opens_and_seeds quiet
                   (configured "Acme" "Strict" "Reverse a list" idle) _)).
  reflexivity.
Defined.

(** X12. Connect, then disconnect, with no call failing: the capture
    device is closed again, the client is disconnected and [isConnected]
    is false, but the playback engine, which the component never closes,
    stays connected, and the memory emptied by the connect stays empty. *)
Theorem connect_then_disconnect env w r :
  (∀ c, fails env c = None) →
  interrupt_result env = Returns r →
  outcome_of (and_then connectConversation disconnectConversation env w) = Returns tt
  ∧ only not_append
      (trace_of (and_then connectConversation disconnectConversation env w))
    = [RecorderBegin; PlayerConnect; ClientConnect;
       ClientSendUserMessageContent initial_seed]
      ++ (if decide (turnDetectionType w = Some "server_vad")
          then [RecorderRecord] else [])
      ++ [ClientDisconnect; RecorderEnd; PlayerInterrupt]
  ∧ recorderStatus
      (world_of (and_then connectConversation disconnectConversation env w)) = ended
  ∧ clientConnected
      (world_of (and_then connectConversation disconnectConversation env w)) = false
  ∧ playerConnected
      (world_of (and_then connectConversation disconnectConversation env w)) = true
  ∧ isConnected
      (react (world_of (and_then connectConversation disconnectConversation env w)))
    = false
  ∧ memoryKv
      (react (world_of (and_then connectConversation disconnectConversation env w)))
    = ∅.
Proof.
  intros Hf Hi. destruct w as [re st rs pc cc td cv hp sp].
  unfold and_then, connectConversation, rendered, useCallback_no_deps,
    connectConversation_callback, disconnectConversation.
  rewrite seed_of_initial_state.
  unfold bind, await, suspend, interrupt, call, read, ret, clock, setState, update,
    trace_of, world_of, outcome_of, only.
  rewrite !Hf, Hi. cbn -[delivered decide].
  destruct (decide (td = Some "server_vad")); rewrite ?Hf;
    repeat (rewrite ?List.filter_app, ?filter_delivered; cbn -[delivered]);
    by destruct re.
Qed.

Lemma connect_then_disconnect_witness :
  recorderStatus
    (world_of (and_then connectConversation disconnectConversation quiet idle)) = ended
  ∧ playerConnected
      (world_of (and_then connectConversation disconnectConversation quiet idle)) = true.
Proof.
  destruct (connect_then_disconnect quiet idle None)
    as (_ & _ & H1 & _ & H2 & _); [reflexivity | reflexivity |].
  split; [exact H1 | exact H2].
Defined.

End Lifecycle.

(** ** More on the conversation reconciler *)

Section ReconcilerMore.

Implicit Types (env : Env) (w : World) (item : string) (object : Item)
  (delta : option Delta).

(** Every way a notification for a known item can go. *)
Lemma on_conversation_updated_found env w item object delta :
  heap w !! item = Some object →
  on_conversation_updated item delta env w =
    match (match delta ≫= delta_audio with
           | Some chunk => fails env (PlayerAdd16BitPCM chunk (id object))
           | None => None
           end) with
    | Some e => (w, streamed object delta, Throws e)
    | None =>
        if bool_decide (status object = completed)
           && has_length (audio (formatted object))
        then
          match decode_result env (default [] (audio (formatted object))) with
          | Returns wavFile =>
              (with_react (setItems (conversation w))
                 (with_heap (alter (set_file (Some wavFile)) item)
                    (next_suspension w)),
               streamed object delta
                 ++ WavDecode (default [] (audio (formatted object))) 24000 24000
                    :: delivered env w,
               Returns tt)
          | Throws e =>
              (next_suspension w,
               streamed object delta
                 ++ WavDecode (default [] (audio (formatted object))) 24000 24000
                    :: delivered env w,
               Throws e)
          end
        else (with_react (setItems (conversation w)) w, streamed object delta,
              Returns tt)
    end.
Proof.
  intros Hobj. unfold on_conversation_updated, streamed.
  rewrite bind_read, bind_read, Hobj.
  destruct w as [re st rs pc cc td cv hp sp].
  unfold bind, await, decode, suspend, call, update, setState, ret.
  destruct (delta ≫= delta_audio) as [chunk|];
    [destruct (fails env (PlayerAdd16BitPCM chunk (id object))); [done|]|];
    destruct (bool_decide (status object = completed)
              && has_length (audio (formatted object)));
    try destruct (decode_result env _); cbn -[delivered];
    by rewrite ?app_nil_r.
Qed.

Lemma calls_delivered p env w :
  (∀ mono, p (ClientAppendInputAudio mono) = false) → calls p (delivered env w) = 0%nat.
Proof. intros Hp. unfold calls. by rewrite only_delivered. Qed.

(** X13. The audio of a delta is handed to the player exactly once, for
    the id of the item, and before anything else the handler calls; a
    delta without audio hands over nothing. *)
Theorem delta_audio_streamed_once_first env w item object delta :
  heap w !! item = Some object →
  ∃ rest,
    trace_of (on_conversation_updated item delta env w)
      = streamed object delta ++ rest
    ∧ calls is_add rest = 0%nat.
Proof.
  intros Hobj. rewrite (on_conversation_updated_found _ _ _ _ _ Hobj).
  destruct (match delta ≫= delta_audio with Some _ => _ | None => _ end);
    [exists []; by rewrite app_nil_r|].
  destruct (_ && _); [|exists []; by rewrite app_nil_r].
  destruct (decode_result env _); eexists; (split; [reflexivity|]);
    unfold calls; rewrite only_cons; simpl; by rewrite only_delivered.
Qed.

Lemma delta_audio_streamed_once_first_witness :
  ∃ rest,
    trace_of (on_conversation_updated "b2" chunk_delta quiet streaming)
      = [PlayerAdd16BitPCM [9; 9] "b2"] ++ rest
    ∧ calls is_add rest = 0%nat.
Proof.
  apply (delta_audio_streamed_once_first quiet streaming "b2" item_b2 chunk_delta).
  reflexivity.
Defined.

(** X14. An item that is not completed, or has no audio, is never
    decoded and its object is left as it is; if the streaming call does
    not fail, the handler returns and the item list becomes the client's
    list. *)
Theorem unfinished_item_is_not_decoded env w item object delta :
  heap w !! item = Some object →
  bool_decide (status object = completed) && has_length (audio (formatted object))
    = false →
  calls is_decode (trace_of (on_conversation_updated item delta env w)) = 0%nat
  ∧ heap (world_of (on_conversation_updated item delta env w)) = heap w
  ∧ ((∀ pcm track, fails env (PlayerAdd16BitPCM pcm track) = None) →
     outcome_of (on_conversation_updated item delta env w) = Returns tt
     ∧ items (react (world_of (on_conversation_updated item delta env w)))
       = conversation w).
Proof.
  intros Hobj Hcond. rewrite (on_conversation_updated_found _ _ _ _ _ Hobj), Hcond.
  unfold streamed.
  destruct (delta ≫= delta_audio) as [chunk|];
    [destruct (fails env (PlayerAdd16BitPCM chunk (id object))) eqn:Hadd|];
    unfold trace_of, world_of, outcome_of; simpl fst; simpl snd;
    (split; [done|]); (split; [by destruct w|]); intros Hf;
    rewrite ?Hf in *; try discriminate; by destruct w as [[] ].
Qed.

Lemma unfinished_item_is_not_decoded_witness :
  calls is_decode (trace_of (on_conversation_updated "b2" chunk_delta quiet streaming))
    = 0%nat
  ∧ items (react (world_of (on_conversation_updated "b2" chunk_delta quiet streaming)))
    = ["a1"].
Proof.
  destruct (unfinished_item_is_not_decoded quiet streaming "b2" item_b2 chunk_delta)
    as (H1 & _ & H2); [reflexivity | reflexivity |].
  split; [exact H1|]. apply H2. reflexivity.
Defined.

(** X15. When the decode of a completed item fails, the handler rejects
    with that error before it refreshes the item list: the React state
    is as it was and the item has no new file. *)
Theorem decode_failure_skips_refresh env w item object delta e :
  heap w !! item = Some object →
  status object = completed →
  has_length (audio (formatted object)) = true →
  (∀ pcm track, fails env (PlayerAdd16BitPCM pcm track) = None) →
  decode_result env (default [] (audio (formatted object))) = Throws e →
  outcome_of (on_conversation_updated item delta env w) = Throws e
  ∧ react (world_of (on_conversation_updated item delta env w)) = react w
  ∧ heap (world_of (on_conversation_updated item delta env w)) = heap w.
Proof.
  intros Hobj Hst Hlen Hadd Hdec.
  rewrite (on_conversation_updated_completed _ _ _ _ _ Hobj Hst Hlen Hadd).
  cbv zeta. rewrite Hdec. by destruct w.
Qed.

Lemma decode_failure_skips_refresh_witness :
  outcome_of (on_conversation_updated "a1" None
                (undecodable (Raised "bad wav") quiet) finished)
    = Throws (Raised "bad wav")
  ∧ react (world_of (on_conversation_updated "a1" None
                       (undecodable (Raised "bad wav") quiet) finished))
    = react finished
  ∧ heap (world_of (on_conversation_updated "a1" None
                      (undecodable (Raised "bad wav") quiet) finished))
    = heap finished.
Proof.
  apply (decode_failure_skips_refresh (undecodable (Raised "bad wav") quiet)
           finished "a1" item_a1 None (Raised "bad wav")); reflexivity.
Defined.

(** X16. Whatever the notification, the handler leaves every other item
    object as it is, keeps the client's conversation, and changes at most
    the file of the item it was called for; for an item it cannot find it
    throws a [TypeError] before calling or changing anything. *)
Theorem on_conversation_updated_touches_one_file env w item delta :
  (∀ other, other ≠ item →
     heap (world_of (on_conversation_updated item delta env w)) !! other
     = heap w !! other)
  ∧ set_file None <$> heap (world_of (on_conversation_updated item delta env w)) !! item
    = set_file None <$> heap w !! item
  ∧ conversation (world_of (on_conversation_updated item delta env w))
    = conversation w
  ∧ (heap w !! item = None →
     on_conversation_updated item delta env w = (w, [], Throws TypeError)).
Proof.
  destruct (heap w !! item) as [object|] eqn:Hobj.
  - rewrite (on_conversation_updated_found _ _ _ _ _ Hobj).
    destruct (match delta ≫= delta_audio with Some _ => _ | None => _ end);
      [|destruct (_ && _); [destruct (decode_result env _)|]];
      unfold world_of; simpl fst;
      (split; [intros other Hne|split; [|split; [|done]]]);
      destruct w as [re st rs pc cc td cv hp sp]; simpl in *;
      rewrite ?lookup_alter_ne by done; rewrite ?lookup_alter_eq, ?Hobj;
      done.
  - assert (Hrun : on_conversation_updated item delta env w = (w, [], Throws TypeError)).
    { unfold on_conversation_updated. by rewrite bind_read, bind_read, Hobj. }
    rewrite Hrun. unfold world_of. simpl. by rewrite Hobj.
Qed.

Lemma on_conversation_updated_touches_one_file_witness :
  heap (world_of (on_conversation_updated "a1" None quiet streaming)) !! "b2"
    = heap streaming !! "b2"
  ∧ on_conversation_updated "zz" None quiet streaming
    = (streaming, [], Throws TypeError).
Proof.
  split.
  - destruct (on_conversation_updated_touches_one_file quiet streaming "a1" None)
      as (H & _).
    apply H. discriminate.
  - destruct (on_conversation_updated_touches_one_file quiet streaming "zz" None)
      as (_ & _ & _ & H).
    apply H. reflexivity.
Defined.

End ReconcilerMore.

(** ** More on the turn mode *)

Section TurnModeMore.

Implicit Types (env : Env) (w : World) (value : string).

(** X17. A mode switch in which no call fails ends with push-to-talk
    enabled exactly for the value ["none"], with the session's turn
    detection off for ["none"] and [server_vad] for any other value, and
    with the capture paused (when leaving a running capture), recording
    (when entering [server_vad] while connected) or as it was. *)
Theorem changeTurnEndType_switches_mode env w value :
  (∀ c, fails env c = None) →
  outcome_of (changeTurnEndType value env w) = Returns tt
  ∧ canPushToTalk (react (world_of (changeTurnEndType value env w)))
    = String.eqb value "none"
  ∧ turnDetectionType (world_of (changeTurnEndType value env w))
    = (if String.eqb value "none" then None else Some "server_vad")
  ∧ recorderStatus (world_of (changeTurnEndType value env w))
    = (if String.eqb value "none" && bool_decide (recorderStatus w = recording)
       then paused
       else if String.eqb value "server_vad" && clientConnected w then recording
       else recorderStatus w).
Proof.
  intros Hf. destruct w as [[] st rs pc cc td cv hp sp].
  unfold changeTurnEndType, bind, await, suspend, call, read, ret, setState, update,
    outcome_of, world_of.
  cbn [recorderStatus clientConnected].
  destruct (String.eqb value "none") eqn:Hnone;
    destruct (bool_decide (rs = recording)) eqn:Hrec;
    destruct (String.eqb value "server_vad") eqn:Hvad;
    destruct cc; rewrite ?Hf; cbn -[delivered]; rewrite ?Hf; cbn -[delivered];
    try done.
  all: apply String.eqb_eq in Hnone, Hvad; congruence.
Qed.

Lemma changeTurnEndType_switches_mode_witness :
  canPushToTalk (react (world_of (changeTurnEndType "server_vad" quiet in_session)))
    = false
  ∧ turnDetectionType (world_of (changeTurnEndType "server_vad" quiet in_session))
    = Some "server_vad"
  ∧ recorderStatus (world_of (changeTurnEndType "server_vad" quiet in_session))
    = recording.
Proof.
  destruct (changeTurnEndType_switches_mode quiet in_session "server_vad")
    as (_ & H1 & H2 & H3); [reflexivity|].
  split; [exact H1 | split; [exact H2 | exact H3]].
Defined.

(** X18. When the session update of a mode switch fails (the pause
    before it, if any, having succeeded), the switch is abandoned half
    way: the handler rejects, the push-to-talk flag and the turn
    detection stay as they were and no capture is started, but a running
    capture that was paused for the switch stays paused. *)
Theorem changeTurnEndType_update_failure env w value e :
  fails env RecorderPause = None →
  fails env (turn_update value) = Some e →
  outcome_of (changeTurnEndType value env w) = Throws e
  ∧ react (world_of (changeTurnEndType value env w)) = react w
  ∧ turnDetectionType (world_of (changeTurnEndType value env w)) = turnDetectionType w
  ∧ recorderStatus (world_of (changeTurnEndType value env w))
    = (if String.eqb value "none" && bool_decide (recorderStatus w = recording)
       then paused else recorderStatus w)
  ∧ calls (is_call RecorderRecord) (trace_of (changeTurnEndType value env w)) = 0%nat.
Proof.
  intros Hp Hu. destruct w as [re st rs pc cc td cv hp sp].
  unfold turn_update in Hu.
  unfold changeTurnEndType, bind, await, suspend, call, read, ret, setState, update,
    outcome_of, world_of, trace_of, calls, only.
  cbn [recorderStatus clientConnected].
  destruct (String.eqb value "none") eqn:Hnone;
    destruct (bool_decide (rs = recording)) eqn:Hrec;
    rewrite ?Hp, ?Hu; cbn -[delivered]; rewrite ?Hp, ?Hu; cbn -[delivered];
    done.
Qed.

Lemma changeTurnEndType_update_failure_witness :
  outcome_of (changeTurnEndType "none"
                (failing (turn_update "none") (Raised "closed") quiet) capturing)
    = Throws (Raised "closed")
  ∧ canPushToTalk (react (world_of (changeTurnEndType "none"
                (failing (turn_update "none") (Raised "closed") quiet) capturing)))
    = canPushToTalk (react capturing)
  ∧ recorderStatus (world_of (changeTurnEndType "none"
                (failing (turn_update "none") (Raised "closed") quiet) capturing))
    = paused.
Proof.
  destruct (changeTurnEndType_update_failure
              (failing (turn_update "none") (Raised "closed") quiet) capturing
              "none" (Raised "closed")) as (H1 & H2 & _ & H3 & _);
    [reflexivity | reflexivity |].
  split; [exact H1 | split; [by rewrite H2 | exact H3]].
Defined.

(** X19. Switching to [server_vad] and back to ["none"] while the client
    is connected, with no call failing: the capture is started by the
    first switch and paused by the second, each session update follows
    its switch, and the controller ends in push-to-talk mode with the
    capture paused and turn detection off. *)
Theorem turn_mode_round_trip env w :
  (∀ c, fails env c = None) →
  clientConnected w = true →
  only not_append
    (trace_of (and_then (changeTurnEndType "server_vad") (changeTurnEndType "none") env w))
    = [turn_update "server_vad"; RecorderRecord; RecorderPause; turn_update "none"]
  ∧ recorderStatus
      (world_of (and_then (changeTurnEndType "server_vad") (changeTurnEndType "none") env w))
    = paused
  ∧ canPushToTalk
      (react (world_of (and_then (changeTurnEndType "server_vad")
                          (changeTurnEndType "none") env w)))
    = true
  ∧ turnDetectionType
      (world_of (and_then (changeTurnEndType "server_vad") (changeTurnEndType "none") env w))
    = None.
Proof.
  intros Hf Hc. destruct w as [[] st rs pc cc td cv hp sp]. simpl in Hc. subst cc.
  unfold and_then, changeTurnEndType, bind, await, suspend, call, read, ret,
    setState, update, world_of, trace_of, only.
  rewrite !Hf. cbn -[delivered]. rewrite !Hf. cbn -[delivered].
  rewrite (bool_decide_eq_true_2 (recording = recording)) by done.
  rewrite !Hf. cbn -[delivered].
  repeat (rewrite ?List.filter_app, ?filter_delivered; cbn -[delivered]).
  done.
Qed.

Lemma turn_mode_round_trip_witness :
  only not_append
    (trace_of (and_then (changeTurnEndType "server_vad") (changeTurnEndType "none")
                 (speaking [[1]] quiet) in_session))
    = [turn_update "server_vad"; RecorderRecord; RecorderPause; turn_update "none"].
Proof.
  refine (proj1 (turn_mode_round_trip (speaking [[1]] quiet) in_session _ _));
    reflexivity.
Defined.

End TurnModeMore.

(** ** More on the memory tool *)

Section MemoryMore.

Implicit Types (env : Env) (w : World) (key value : string).

Lemma memory_after_then {A} key value (k : ToolResult → M A) env w :
  (x <- set_memory key value ;; k x) env w
  = k {| ok := true |} env
      (with_react (λ s, setMemoryKv (assign (memoryKv s) key value) s) w).
Proof. unfold set_memory. by rewrite bind_assoc, bind_setState, bind_ret. Qed.

(** X20. Saving twice under one key keeps the last value only, and
    saving under two different keys gives the same memory in either
    order. *)
Theorem set_memory_last_write_wins env w key other value value' :
  memory_after ((set_memory key value ;; set_memory key value') env w)
    = memory_after (set_memory key value' env w)
  ∧ (key ≠ other →
     memory_after ((set_memory key value ;; set_memory other value') env w)
     = memory_after ((set_memory other value' ;; set_memory key value) env w)).
Proof.
  unfold memory_after. rewrite !memory_after_then, !memoryKv_set_memory.
  destruct w as [[] st rs pc cc td cv hp sp]. simpl. unfold assign.
  split.
  - destruct (String.eqb key "__proto__"); [done|]. by rewrite insert_insert_eq.
  - intros Hne.
    destruct (String.eqb key "__proto__"), (String.eqb other "__proto__");
      try done.
    by apply insert_insert_ne.
Qed.

Lemma set_memory_last_write_wins_witness :
  memory_after ((set_memory "name" "Ada" ;; set_memory "lang" "ml") quiet idle)
  = memory_after ((set_memory "lang" "ml" ;; set_memory "name" "Ada") quiet idle).
Proof.
  refine (proj2 (set_memory_last_write_wins quiet idle "name" "lang" "Ada" "ml") _).
  discriminate.
Defined.

(** X21. Whatever the key, a save calls no collaborator, removes no key
    from the memory and adds at most one. *)
Theorem set_memory_grows_by_at_most_one env w key value :
  trace_of (set_memory key value env w) = []
  ∧ dom (memoryKv (react w)) ⊆ dom (memory_after (set_memory key value env w))
  ∧ (size (memory_after (set_memory key value env w))
     ≤ S (size (memoryKv (react w))))%nat.
Proof.
  unfold memory_after. rewrite memoryKv_set_memory, set_memory_run.
  split; [done|]. unfold assign.
  destruct (String.eqb key "__proto__"); [split; [done|lia]|].
  split; [rewrite dom_insert_L; set_solver|].
  rewrite map_size_insert. destruct (memoryKv (react w) !! key); simpl; lia.
Qed.

End MemoryMore.

(** ** The editor *)

Section Editor.

Implicit Types (env : Env) (page : World * EditorCells) (v : string).

Lemma code_with_react_setCode v w : code (react (with_react (setCode v) w)) = v.
Proof. by destruct w as [[] ]. Qed.

(** X22. The sync flag tells whether the editor holds the code last
    sent: every edit makes it so, and a send keeps it so, whether it
    sends, is skipped because the session is not connected, or fails. *)
Theorem editor_handlers_keep_sync_flag env page v :
  in_sync (onCodeChange v page)
  ∧ (in_sync page → in_sync (sendCode env page).1.1).
Proof.
  destruct page as [w cells]. split.
  - unfold in_sync, onCodeChange. simpl. by rewrite code_with_react_setCode.
  - intros Hsync. unfold sendCode.
    destruct (isConnected (react w)); simpl; [|done].
    unfold call.
    destruct (fails env _); simpl; [done|].
    unfold in_sync. simpl. by rewrite String.eqb_refl.
Qed.

Lemma editor_handlers_keep_sync_flag_witness :
  in_sync (sendCode quiet (onCodeChange "y = 2" sent_page)).1.1.
Proof.
  destruct (editor_handlers_keep_sync_flag quiet (onCodeChange "y = 2" sent_page) "")
    as [_ H].
  apply H. reflexivity.
Defined.

(** X23. Editing then sending while connected, the send not failing,
    sends exactly the edited text, once; from then on the flag says
    synced exactly for that text. While disconnected the send is
    skipped: nothing is called and nothing changes. *)
Theorem edit_then_send env page v :
  (isConnected (react page.1) = true →
   fails env (ClientSendUserMessageContent (code_text v)) = None →
   (sendCode env (onCodeChange v page)).1.2
     = [ClientSendUserMessageContent (code_text v)]
   ∧ lastSentCode (sendCode env (onCodeChange v page)).1.1.2 = v
   ∧ isSynced (sendCode env (onCodeChange v page)).1.1.2 = true
   ∧ ∀ v', isSynced (onCodeChange v' (sendCode env (onCodeChange v page)).1.1).2
           = String.eqb v' v)
  ∧ (isConnected (react page.1) = false →
     sendCode env (onCodeChange v page) = (onCodeChange v page, [], Returns tt)).
Proof.
  destruct page as [[[] st rs pc cc td cv hp sp] cells]. simpl.
  split.
  - intros -> Hf. unfold sendCode, onCodeChange, call. simpl. by rewrite Hf.
  - intros ->. done.
Qed.

Lemma edit_then_send_witness :
  (sendCode quiet (onCodeChange "y = 2" sent_page)).1.2
    = [ClientSendUserMessageContent (code_text "y = 2")]
  ∧ lastSentCode (sendCode quiet (onCodeChange "y = 2" sent_page)).1.1.2 = "y = 2".
Proof.
  destruct (edit_then_send quiet sent_page "y = 2") as [H _].
  destruct H as (H1 & H2 & _); [reflexivity | reflexivity |].
  split; [exact H1 | exact H2].
Defined.

(** X24. A connect empties the editor content without telling the sync
    flag: if code had been sent and the flag said synced, then after
    [connectConversation], successful or not, the flag still says synced
    although the editor no longer holds the code last sent. *)
Theorem connect_desynchronizes_editor env w (cells : EditorCells) :
  lastSentCode cells ≠ "" →
  isSynced cells = true →
  code (react (world_of (connectConversation env w))) = ""
  ∧ ¬ in_sync (world_of (connectConversation env w), cells).
Proof.
  intros Hsent Hflag.
  assert (Hcode : code (react (world_of (connectConversation env w))) = "").
  { destruct w as [[] st rs pc cc td cv hp sp].
    unfold connectConversation, rendered, useCallback_no_deps,
      connectConversation_callback.
    rewrite bind_clock, bind_update, !bind_setState, bind_read, !bind_setState.
    unfold bind, await, suspend, call, read, ret, world_of.
    repeat (destruct (fails env _); cbn -[delivered decide]; try done).
    destruct (decide _); cbn -[delivered]; [|done].
    by destruct (fails env _). }
  split; [done|].
  unfold in_sync. simpl. rewrite Hcode, Hflag.
  destruct (String.eqb_spec "" (lastSentCode cells)); [by destruct Hsent|done].
Qed.

Lemma connect_desynchronizes_editor_witness :
  ¬ in_sync (world_of (connectConversation quiet sent_page.1), sent_page.2).
Proof.
  refine (proj2 (connect_desynchronizes_editor quiet sent_page.1 sent_page.2 _ _));
    [discriminate | reflexivity].
Defined.

End Editor.

(** ** The transcript *)

Section Transcript.

Implicit Types (f : Formatted).

Lemma or_else_nonempty a b : b ≠ "" → or_else a b ≠ "".
Proof.
  intros Hb. unfold or_else. simpl.
  destruct (String.eqb_spec a ""); simpl; done.
Qed.

(** X25. The text rendered for a user item or an assistant item is never
    empty, and it is the transcript whenever there is one. *)
Theorem rendered_text_is_never_empty f :
  user_text f ≠ "" ∧ assistant_text f ≠ ""
  ∧ (transcript f ≠ "" →
     user_text f = transcript f ∧ assistant_text f = transcript f).
Proof.
  split; [|split].
  - unfold user_text. apply or_else_nonempty.
    destruct (has_length (audio f)); [done|]. by apply or_else_nonempty.
  - unfold assistant_text. by apply or_else_nonempty.
  - intros Ht. unfold user_text, assistant_text, or_else. simpl.
    destruct (String.eqb_spec (transcript f) ""); [done|]. simpl.
    by destruct (String.eqb_spec (transcript f) "").
Qed.

Lemma rendered_text_is_never_empty_witness :
  user_text (formatted item_a1) = "hello" ∧ assistant_text (formatted item_a1) = "hello".
Proof.
  destruct (rendered_text_is_never_empty (formatted item_a1)) as (_ & _ & H).
  apply H. discriminate.
Defined.

(** X26. The first item of the list (the seed instruction) is never
    rendered, and the others are rendered in their order. *)
Theorem first_item_is_never_rendered (items : list string) (i : nat) :
  rendered_items items !! i = items !! S i
  ∧ length (rendered_items items) = (length items - 1)%nat.
Proof.
  unfold rendered_items.
  destruct (Nat.leb_spec (length items) 1) as [Hle|Hgt].
  - destruct items as [|a [|b items]]; simpl in *; [done | done | lia].
  - by rewrite lookup_drop, length_drop.
Qed.

End Transcript.
